(** * Shallow embedding of [rpi_coincidence_control.py]

    The controller [RPiCoincidenceController] is modelled as a record of
    fixed fields built by the constructor ([config]) and a record of the
    attributes its setters mutate ([ctrl]).  The GPIO capability is a log of
    the calls the controller makes to it ([gpio_event]), kept inside the
    mutable state, so "no hardware write" means "the log is unchanged".
    Python exceptions are a sum type; a method is a function of the state
    returning its outcome and the state at the point it returned or raised
    (a state-and-exception monad).  The controller's [attr_lock] serialises
    the methods; the model runs them one after another. *)

From Stdlib Require Import ZArith QArith Qabs Qround Qpower List String Ascii Lia.
Import ListNotations.
Open Scope Z_scope.

(** ** Python values used by the module *)

(** Exceptions raised by the code: [ValueError] from the range checks,
    [KeyError] from a dict lookup, [IndexError] from an index or an
    [argmin] of an empty array. *)
Inductive exn :=
| ValueError
| KeyError (key : string)
| IndexError.

(** A Python dict built by successive assignments, as an association list
    in insertion order; [d[k] = v] on an existing key overwrites it. *)
Definition dict (V : Type) := list (string * V).

Fixpoint dict_get {V} (d : dict V) (k : string) : option V :=
  match d with
  | [] => None
  | (k', v) :: r => if String.eqb k k' then Some v else dict_get r k
  end.

Fixpoint dict_set {V} (d : dict V) (k : string) (v : V) : dict V :=
  match d with
  | [] => [(k, v)]
  | (k', v') :: r =>
      if String.eqb k k' then (k', v) :: r else (k', v') :: dict_set r k v
  end.

(** [np.uint8(x)] on an integer: wrap-around modulo 256 (numpy 1.x, for
    [x] in the C long range; outside it numpy raises [OverflowError], and
    numpy 2 raises for any [x] outside [0..255]; those paths are not
    modelled, so results about [x] outside [0..255] hold for numpy 1.x
    within the C long range only). *)
Definition uint8 (x : Z) : Z := x mod 256.

(** [np.unpackbits(np.uint8(x))]: the 8 bits of a byte, most significant
    first. *)
Definition unpackbits (x : Z) : list Z :=
  map (fun b => if Z.testbit x b then 1 else 0) [7; 6; 5; 4; 3; 2; 1; 0].

(** ** The GPIO capability *)

(** [gpio.output(pin_list, value_list)], [gpio.output(pin, value)] and
    [time.sleep(t)] as observed events. *)
Inductive gpio_event :=
| OutputList (pins : list Z) (levels : list Z)
| OutputPin (pin : Z) (level : Z)
| Sleep (t : Q)
| SetMode
| Setup (pin : Z).

(** ** Exception-and-state monad *)

Section Monad.
Variable S : Type.

Definition M (A : Type) := S -> (exn + A) * S.

Definition ret {A} (a : A) : M A := fun s => (inr a, s).
Definition raise {A} (e : exn) : M A := fun s => (inl e, s).
Definition bind {A B} (m : M A) (k : A -> M B) : M B :=
  fun s => match m s with
           | (inl e, s') => (inl e, s')
           | (inr a, s') => k a s'
           end.
Definition get : M S := fun s => (inr s, s).
Definition put (s : S) : M unit := fun _ => (inr tt, s).
Definition modify (f : S -> S) : M unit := fun s => (inr tt, f s).
Definition lift_opt {A} (e : exn) (o : option A) : M A :=
  match o with Some a => ret a | None => raise e end.
End Monad.

Arguments ret {S A} a s.
Arguments raise {S A} e s.
Arguments bind {S A B} m k s.
Arguments get {S} s.
Arguments put {S} s _.
Arguments modify {S} f s.
Arguments lift_opt {S A} e o s.

Notation "x <- m ;; k" := (bind m (fun x => k))
  (at level 61, m at next level, right associativity).
Notation "m ;; k" := (bind m (fun _ => k))
  (at level 61, right associativity).

(** ** Python string operations, on ASCII strings *)

(** [str.lower] and [str.upper] on one character. *)
Definition ascii_lower (c : ascii) : ascii :=
  let n := nat_of_ascii c in
  if andb (Nat.leb 65 n) (Nat.leb n 90) then ascii_of_nat (n + 32) else c.

Definition ascii_upper (c : ascii) : ascii :=
  let n := nat_of_ascii c in
  if andb (Nat.leb 97 n) (Nat.leb n 122) then ascii_of_nat (n - 32) else c.

Fixpoint str_map (f : ascii -> ascii) (s : string) : string :=
  match s with
  | EmptyString => EmptyString
  | String c r => String (f c) (str_map f r)
  end.

Definition lower (s : string) : string := str_map ascii_lower s.
Definition upper (s : string) : string := str_map ascii_upper s.

(** [needle in hay] for strings: some suffix of [hay] starts with
    [needle]. *)
Fixpoint str_in (needle hay : string) : bool :=
  String.prefix needle hay ||
  match hay with
  | EmptyString => false
  | String _ r => str_in needle r
  end.

(** ** numpy helpers *)

(** [a * b] on two arrays of the same length, element-wise. *)
Fixpoint np_mul (a b : list Z) : list Z :=
  match a, b with
  | x :: a', y :: b' => x * y :: np_mul a' b'
  | _, _ => []
  end.

Definition np_sum (a : list Z) : Z := fold_right Z.add 0 a.

(** [np.argmin]: index of the first minimal element; raises on an empty
    array. *)
Fixpoint argmin_from (l : list Q) (i bi : nat) (bv : Q) : nat :=
  match l with
  | [] => bi
  | x :: r =>
      if Qle_bool bv x then argmin_from r (S i) bi bv
      else argmin_from r (S i) i x
  end.

Definition argmin (l : list Q) : option nat :=
  match l with
  | [] => None
  | x :: r => Some (argmin_from r 1 0 x)
  end.

(** *** float64 arithmetic

    A Python float is a finite binary64 value, kept as the rational it
    denotes.  The result of a float64 operation is the exact result rounded
    to the nearest binary64 value, ties to the even significand: a 53-bit
    significand, and a last significand bit no finer than [2^-1074]
    (subnormals).  Infinities and NaN are not represented. *)

(** [2 ^ e] as a rational. *)
Definition pow2 (e : Z) : Q := Qpower (2 # 1) e.

(** [floor(log2 x)] for [x > 0]. *)
Definition flog2 (x : Q) : Z :=
  let k := Z.log2 (Qnum x) - Z.log2 (Zpos (Qden x)) in
  if Qle_bool (pow2 k) x then k else k - 1.

(** Rounding of [x >= 0] to the nearest integer, ties to even. *)
Definition round_ne (x : Q) : Z :=
  let f := Qfloor x in
  match Qcompare (x - inject_Z f) (1 # 2) with
  | Lt => f
  | Gt => f + 1
  | Eq => if Z.even f then f else f + 1
  end.

(** Weight of the last significand bit of the binary64 values around
    [x > 0]. *)
Definition fl_exp (x : Q) : Z := Z.max (flog2 x - 52) (-1074).

Definition fl_pos (x : Q) : Q :=
  let e := fl_exp x in inject_Z (round_ne (x / pow2 e)) * pow2 e.

(** Rounding of an exact result to binary64, round half to even; rounding
    is symmetric in the sign. *)
Definition fl64 (x : Q) : Q :=
  match Qcompare x 0 with
  | Eq => 0
  | Gt => fl_pos x
  | Lt => - fl_pos (- x)
  end.

(** ** The controller *)

(** Fields fixed by [__init__]. ([laser_freq], [rev_freq] and
    [quad_time] are computed there but never read.) *)
Record config := {
  pin_dict : dict Z;
  pin_list : list Z;
  mode_dict : dict Z;
  strobe_time : Q;
  delay_bin : list Z;
  delay_array : list Z
}.

(** Fields mutated by the methods, and the GPIO log. *)
Record ctrl := {
  cfg : config;
  current_phase_counter : Z;
  phase_adv : Q;
  target_bucket : Z;
  window : Z;
  laser_trig : Z;
  ring_rf : Z;
  offset_fine : Z;
  offset_coarse : Z;
  hw : list gpio_event
}.

Definition with_hw (s : ctrl) (h : list gpio_event) : ctrl :=
  {| cfg := cfg s; current_phase_counter := current_phase_counter s;
     phase_adv := phase_adv s; target_bucket := target_bucket s;
     window := window s; laser_trig := laser_trig s; ring_rf := ring_rf s;
     offset_fine := offset_fine s; offset_coarse := offset_coarse s;
     hw := h |}.

Definition with_target_bucket (s : ctrl) (v : Z) : ctrl :=
  {| cfg := cfg s; current_phase_counter := current_phase_counter s;
     phase_adv := phase_adv s; target_bucket := v;
     window := window s; laser_trig := laser_trig s; ring_rf := ring_rf s;
     offset_fine := offset_fine s; offset_coarse := offset_coarse s;
     hw := hw s |}.

Definition with_window (s : ctrl) (v : Z) : ctrl :=
  {| cfg := cfg s; current_phase_counter := current_phase_counter s;
     phase_adv := phase_adv s; target_bucket := target_bucket s;
     window := v; laser_trig := laser_trig s; ring_rf := ring_rf s;
     offset_fine := offset_fine s; offset_coarse := offset_coarse s;
     hw := hw s |}.

Definition with_laser_trig (s : ctrl) (v : Z) : ctrl :=
  {| cfg := cfg s; current_phase_counter := current_phase_counter s;
     phase_adv := phase_adv s; target_bucket := target_bucket s;
     window := window s; laser_trig := v; ring_rf := ring_rf s;
     offset_fine := offset_fine s; offset_coarse := offset_coarse s;
     hw := hw s |}.

Definition with_ring_rf (s : ctrl) (v : Z) : ctrl :=
  {| cfg := cfg s; current_phase_counter := current_phase_counter s;
     phase_adv := phase_adv s; target_bucket := target_bucket s;
     window := window s; laser_trig := laser_trig s; ring_rf := v;
     offset_fine := offset_fine s; offset_coarse := offset_coarse s;
     hw := hw s |}.

Definition with_offset_fine (s : ctrl) (v : Z) : ctrl :=
  {| cfg := cfg s; current_phase_counter := current_phase_counter s;
     phase_adv := phase_adv s; target_bucket := target_bucket s;
     window := window s; laser_trig := laser_trig s; ring_rf := ring_rf s;
     offset_fine := v; offset_coarse := offset_coarse s;
     hw := hw s |}.

Definition with_current_phase_counter (s : ctrl) (v : Z) : ctrl :=
  {| cfg := cfg s; current_phase_counter := v;
     phase_adv := phase_adv s; target_bucket := target_bucket s;
     window := window s; laser_trig := laser_trig s; ring_rf := ring_rf s;
     offset_fine := offset_fine s; offset_coarse := offset_coarse s;
     hw := hw s |}.

Definition with_offset_coarse (s : ctrl) (v : Z) : ctrl :=
  {| cfg := cfg s; current_phase_counter := current_phase_counter s;
     phase_adv := phase_adv s; target_bucket := target_bucket s;
     window := window s; laser_trig := laser_trig s; ring_rf := ring_rf s;
     offset_fine := offset_fine s; offset_coarse := v;
     hw := hw s |}.

Definition with_phase_adv (s : ctrl) (v : Q) : ctrl :=
  {| cfg := cfg s; current_phase_counter := current_phase_counter s;
     phase_adv := v; target_bucket := target_bucket s;
     window := window s; laser_trig := laser_trig s; ring_rf := ring_rf s;
     offset_fine := offset_fine s; offset_coarse := offset_coarse s;
     hw := hw s |}.

(** One call to the GPIO capability (or to [time.sleep]). *)
Definition emit (e : gpio_event) : M ctrl unit :=
  modify (fun s => with_hw s (hw s ++ [e])).

(** [self.pin_dict[key]] and [self.mode_dict[key]]. *)
Definition pin (key : string) : M ctrl Z :=
  s <- get;; lift_opt (KeyError key) (dict_get (pin_dict (cfg s)) key).

Definition mode (key : string) : M ctrl Z :=
  s <- get;; lift_opt (KeyError key) (dict_get (mode_dict (cfg s)) key).

(** *** [_write_byte] *)
Definition _write_byte (data mode_code : Z) : M ctrl unit :=
  s <- get;;
  let data_list := rev (unpackbits (uint8 data)) in
  let mode_list := firstn 4 (rev (unpackbits (uint8 mode_code))) in
  let output_list := data_list ++ mode_list in
  emit (OutputList (pin_list (cfg s)) output_list);;
  emit (Sleep (strobe_time (cfg s)));;
  p <- pin "strobe";;
  emit (OutputPin p 1);;
  emit (Sleep (strobe_time (cfg s)));;
  p' <- pin "strobe";;
  emit (OutputPin p' 0).

(** *** [set_bucket] / [get_bucket] *)
Definition set_bucket (target_bucket_ : Z) : M ctrl unit :=
  s <- get;;
  let offset := target_bucket_ * 4 + offset_coarse s in
  if offset >? 255 then raise ValueError
  else
    m <- mode "bucket";;
    _write_byte offset m;;
    modify (fun s => with_target_bucket s target_bucket_).

Definition get_bucket : M ctrl Z :=
  s <- get;; ret (target_bucket s).

(** *** [write_window_raw] *)
Definition write_window_raw (delay_bin_ : Z) : M ctrl unit :=
  m <- mode "delay";;
  _write_byte delay_bin_ m.

(** *** [set_window] / [get_window]

    The requested delay is a Python float (the device server's attribute
    has [dtype=float]); [np.abs(self.delay_array - delay)] subtracts it from
    each (int64) table entry in float64, and the absolute value is exact.
    The constructor's [set_window(0)] passes the int 0, for which numpy
    subtracts in int64; the results agree, as every [t - 0] is a float64. *)
Definition delay_costs (a : list Z) (delay : Q) : list Q :=
  map (fun t => Qabs (fl64 (inject_Z t - delay))) a.

Definition set_window (delay : Q) : M ctrl unit :=
  s <- get;;
  ind <- lift_opt ValueError (argmin (delay_costs (delay_array (cfg s)) delay));;
  delay_min <- lift_opt IndexError (nth_error (delay_array (cfg s)) ind);;
  m <- mode "window";;
  _write_byte (Z.of_nat ind) m;;
  modify (fun s => with_window s delay_min).

Definition get_window : M ctrl Z :=
  s <- get;; ret (window s).

(** *** Source selectors *)
Definition set_laser_trig (source : string) : M ctrl unit :=
  (if str_in "coin" (lower source)
   then modify (fun s => with_laser_trig s 1)
   else modify (fun s => with_laser_trig s 0));;
  s <- get;;
  m <- mode "laser_trig_source";;
  _write_byte (laser_trig s) m.

Definition get_laser_trig : M ctrl string :=
  s <- get;;
  ret (if laser_trig s =? 0 then "MRF"%string else "COINCIDENCE"%string).

Definition set_ring_rf_source (source : string) : M ctrl unit :=
  (if str_in "REV" (upper source)
   then modify (fun s => with_ring_rf s 0)
   else modify (fun s => with_ring_rf s 1));;
  s <- get;;
  m <- mode "ring_rf_source";;
  _write_byte (ring_rf s) m.

Definition get_ring_rf_source : M ctrl string :=
  s <- get;;
  ret (if ring_rf s =? 0 then "REV_CLOCK"%string else "100MHZ"%string).

(** *** Fine and coarse offsets *)
Definition set_offset_fine (offset : Z) : M ctrl Z :=
  s <- get;;
  let delta_phase := offset - current_phase_counter s in
  if (offset <? 0) || (delta_phase >? 255) then raise ValueError
  else
    m <- mode "pause_trig";;
    _write_byte (uint8 1) m;;
    (if delta_phase >? 0
     then m <- mode "inc_phase";; _write_byte (uint8 delta_phase) m
     else m <- mode "dec_phase";; _write_byte (uint8 (- delta_phase)) m);;
    modify (fun s => with_offset_fine s offset);;
    modify (fun s => with_current_phase_counter s offset);;
    s <- get;;
    ret (offset_fine s).

Definition get_offset_fine : M ctrl Z :=
  s <- get;; ret (offset_fine s).

Definition set_offset_coarse (offset_coarse_ : Z) : M ctrl unit :=
  s <- get;;
  let offset := offset_coarse_ + target_bucket s * 4 in
  if offset >? 255 then raise ValueError
  else
    m <- mode "bucket";;
    _write_byte offset_coarse_ m;;
    modify (fun s => with_offset_coarse s offset_coarse_).

Definition get_offset_coarse : M ctrl Z :=
  s <- get;; ret (offset_coarse s).

Definition set_avg_phase_advance (phase_adv_ : Q) : M ctrl unit :=
  modify (fun s => with_phase_adv s phase_adv_).

(** *** [__init__] *)

(** [l[0]], ..., [l[n-1]]; [IndexError] when [l] is shorter. *)
Fixpoint take_indexed (l : list Z) (idx : list nat) : option (list Z) :=
  match idx with
  | [] => Some []
  | i :: r =>
      match nth_error l i, take_indexed l r with
      | Some x, Some xs => Some (x :: xs)
      | _, _ => None
      end
  end.

Fixpoint dict_get_all (d : dict Z) (keys : list string) : option (list Z) :=
  match keys with
  | [] => Some []
  | k :: r =>
      match dict_get d k, dict_get_all d r with
      | Some x, Some xs => Some (x :: xs)
      | _, _ => None
      end
  end.

Definition data_keys : list string :=
  ["d0"; "d1"; "d2"; "d3"; "d4"; "d5"; "d6"; "d7"]%string.
Definition mode_keys : list string := ["mode0"; "mode1"; "mode2"; "mode3"]%string.

Definition init_mode_dict : dict Z :=
  fold_left (fun d kv => dict_set d (fst kv) (snd kv))
    [("inc_phase", 1); ("dec_phase", 2); ("quadrature", 3); ("pause_trig", 4);
     ("bucket", 5); ("window", 6); ("laser_trig_source", 7);
     ("ring_rf_source", 8)]%string [].

Definition init_delay_bin : list Z := [16; 77; 140; 166; 231; 292; 343; 424].

(** [for d in np.arange(256): delay_array.append((np.unpackbits(np.uint8(d))[::-1] * delay_bin).sum())] *)
Definition build_delay_array (bin : list Z) : list Z :=
  map (fun d => np_sum (np_mul (rev (unpackbits (uint8 (Z.of_nat d)))) bin))
      (seq 0 256).

Definition make_config (data_pins : option (list Z)) (mode_pins : list Z)
    (strobe_pin : Z) (strobe_time_ : Q) : option config :=
  let dp := match data_pins with
            | None => Some [29; 31; 33; 35; 37; 40; 38; 36]
            | Some l => take_indexed l (seq 0 8)
            end in
  match dp, take_indexed mode_pins (seq 0 4) with
  | Some dps, Some mps =>
      let pd := fold_left (fun d kv => dict_set d (fst kv) (snd kv))
                  (combine data_keys dps ++ combine mode_keys mps
                   ++ [("strobe"%string, strobe_pin)]) [] in
      match dict_get_all pd (data_keys ++ mode_keys) with
      | Some pl =>
          Some {| pin_dict := pd; pin_list := pl; mode_dict := init_mode_dict;
                  strobe_time := strobe_time_; delay_bin := init_delay_bin;
                  delay_array := build_delay_array init_delay_bin |}
      | None => None
      end
  | _, _ => None
  end.

(** [init_gpio]: [gpio.setup] on every pin of [pin_dict], in insertion
    order. *)
Definition init_gpio_events (c : config) : list gpio_event :=
  SetMode :: map (fun kv => Setup (snd kv)) (pin_dict c).

Definition init_calls : M ctrl unit :=
  set_bucket 0;;
  set_window 0;;
  _ <- set_offset_fine 0;;
  set_ring_rf_source "REV_CLOCK";;
  set_laser_trig "COINCIDENCE".

Definition RPiCoincidenceController (data_pins : option (list Z))
    (mode_pins : list Z) (strobe_pin : Z) (strobe_time_ : Q) : exn + ctrl :=
  match make_config data_pins mode_pins strobe_pin strobe_time_ with
  | None => inl IndexError
  | Some c =>
      let s0 := {| cfg := c; current_phase_counter := 0;
                   phase_adv := 23 # 1000000000000; target_bucket := 0;
                   window := 0; laser_trig := 0; ring_rf := 0;
                   offset_fine := 0; offset_coarse := 0;
                   hw := init_gpio_events c |} in
      match init_calls s0 with
      | (inl e, _) => inl e
      | (inr _, s) => inr s
      end
  end.

Definition default_ctrl : exn + ctrl :=
  RPiCoincidenceController None [32; 22; 18; 16] 12 (5 # 1000).

(** The controller out of a successful construction. *)
Definition ctrl_of (r : exn + ctrl) : match r with inr _ => ctrl | inl _ => (unit : Type) end :=
  match r with inr s => s | inl _ => tt end.

(** The controller built with the default arguments, evaluated. *)
Definition default_state := Eval vm_compute in ctrl_of default_ctrl.

(** ** Derived descriptions used by the statements *)

(** The five GPIO events of one [_write_byte(data, mode)] call, given the
    strobe pin. *)
Definition write_byte_events (c : config) (sp data mode_code : Z)
    : list gpio_event :=
  [OutputList (pin_list c)
     (rev (unpackbits (uint8 data)) ++ firstn 4 (rev (unpackbits (uint8 mode_code))));
   Sleep (strobe_time c); OutputPin sp 1; Sleep (strobe_time c); OutputPin sp 0].

(** The data pins [__init__] reads. *)
Definition data_pins_of (data_pins : option (list Z)) : list Z :=
  match data_pins with
  | None => [29; 31; 33; 35; 37; 40; 38; 36]
  | Some l => firstn 8 l
  end.

(** ** Lemmas on the monad and the constructor *)

Lemma with_hw_hw (s : ctrl) (h1 h2 : list gpio_event) :
  with_hw (with_hw s h1) h2 = with_hw s h2.
Proof. reflexivity. Qed.

Lemma write_byte_eq (s : ctrl) (sp d m : Z) :
  dict_get (pin_dict (cfg s)) "strobe" = Some sp ->
  _write_byte d m s = (inr tt, with_hw s (hw s ++ write_byte_events (cfg s) sp d m)).
Proof.
  intros Hsp. unfold _write_byte, bind, get, emit, modify, pin, lift_opt, ret.
  cbn. rewrite Hsp. cbn. rewrite Hsp. cbn.
  unfold write_byte_events. rewrite <- !app_assoc. reflexivity.
Qed.

Lemma take_indexed_length (l : list Z) (idx : list nat) (xs : list Z) :
  take_indexed l idx = Some xs -> List.length xs = List.length idx.
Proof.
  revert xs; induction idx as [|i r IH]; intros xs H; cbn in H.
  - inversion H; reflexivity.
  - destruct (nth_error l i), (take_indexed l r) eqn:E; inversion H; subst.
    cbn. f_equal. apply IH. reflexivity.
Qed.

Lemma skipn_nth_error_cons (l : list Z) (k : nat) (z : Z) :
  nth_error l k = Some z -> skipn k l = z :: skipn (S k) l.
Proof.
  revert k; induction l as [|a l' IHl]; intros k Ek.
  - destruct k; discriminate.
  - destruct k; cbn in *; [inversion Ek; reflexivity | apply IHl; exact Ek].
Qed.

Lemma take_indexed_seq (l : list Z) (n : nat) (xs : list Z) :
  take_indexed l (seq 0 n) = Some xs -> xs = firstn n l.
Proof.
  assert (G : forall k, take_indexed l (seq k n) = Some xs -> xs = firstn n (skipn k l)).
  { revert xs; induction n as [|n IH]; intros xs k H; cbn in H.
    - inversion H; reflexivity.
    - destruct (nth_error l k) eqn:Ek, (take_indexed l (seq (S k) n)) eqn:E;
        inversion H; subst.
      apply IH in E. subst.
      rewrite (skipn_nth_error_cons l k z Ek). reflexivity. }
  intros H. apply G in H. exact H.
Qed.

(** What a controller built by [__init__] holds in its fixed fields. *)
Lemma make_config_inv dp mp sp st c :
  make_config dp mp sp st = Some c ->
  pin_list c = data_pins_of dp ++ firstn 4 mp /\
  dict_get (pin_dict c) "strobe" = Some sp /\
  mode_dict c = init_mode_dict /\
  strobe_time c = st /\
  delay_array c = build_delay_array init_delay_bin.
Proof.
  unfold make_config. intros H.
  destruct (match dp with
            | None => Some [29; 31; 33; 35; 37; 40; 38; 36]
            | Some l => take_indexed l (seq 0 8)
            end) as [dps|] eqn:Edp; [|discriminate].
  destruct (take_indexed mp (seq 0 4)) as [mps|] eqn:Emp; [|discriminate].
  assert (Hdp : dps = data_pins_of dp).
  { destruct dp as [l|].
    - apply take_indexed_seq in Edp. exact Edp.
    - inversion Edp; reflexivity. }
  assert (Ld : List.length dps = 8%nat).
  { destruct dp as [l|]; [apply take_indexed_length in Edp; exact Edp
                         | inversion Edp; reflexivity]. }
  pose proof (take_indexed_length _ _ _ Emp) as Lm.
  apply take_indexed_seq in Emp. rewrite <- Emp, <- Hdp.
  do 8 (destruct dps as [|? dps]; [discriminate|]).
  destruct dps; [|discriminate].
  do 4 (destruct mps as [|? mps]; [discriminate|]).
  destruct mps; [|discriminate].
  cbn - [build_delay_array] in H. inversion H; subst.
  cbn - [build_delay_array]. repeat split.
Qed.

Lemma write_byte_events_uint8 c sp d m :
  write_byte_events c sp (uint8 d) m = write_byte_events c sp d m.
Proof. unfold write_byte_events, uint8. rewrite Z.mod_mod by lia. reflexivity. Qed.

(** [self.mode_dict[key]] on a constructed controller. *)
Lemma mode_init (s : ctrl) (key : string) :
  mode_dict (cfg s) = init_mode_dict ->
  mode key s = (match dict_get init_mode_dict key with
                | Some v => inr v | None => inl (KeyError key) end, s).
Proof.
  intros H. unfold mode, bind, get. cbv beta iota. rewrite H.
  unfold lift_opt. destruct (dict_get init_mode_dict key); reflexivity.
Qed.

(** The stages of [set_offset_fine] once the range check passed. *)
Lemma set_offset_fine_ok (c : config) (sp : Z) (s : ctrl) (t : Z) :
  mode_dict c = init_mode_dict ->
  dict_get (pin_dict c) "strobe" = Some sp ->
  cfg s = c ->
  0 <= t -> t - current_phase_counter s <= 255 ->
  set_offset_fine t s =
  (inr t,
   with_current_phase_counter
     (with_offset_fine
        (with_hw s (hw s ++ write_byte_events c sp 1 4 ++
                    (if t - current_phase_counter s >? 0
                     then write_byte_events c sp (t - current_phase_counter s) 1
                     else write_byte_events c sp (Z.abs (t - current_phase_counter s)) 2)))
        t) t).
Proof.
  intros Hm Hsp Hc H0 H255. subst c.
  unfold set_offset_fine. unfold bind at 1. unfold get at 1. cbv beta iota.
  replace ((t <? 0) || (t - current_phase_counter s >? 255)) with false
    by (symmetry; apply Bool.orb_false_iff; split;
        [apply Z.ltb_ge; lia | rewrite Z.gtb_ltb; apply Z.ltb_ge; lia]).
  unfold bind at 1. rewrite mode_init by exact Hm.
  cbn - [_write_byte write_byte_events].
  unfold bind at 1. rewrite write_byte_eq with (sp := sp) by exact Hsp.
  cbv beta iota.
  destruct (t - current_phase_counter s >? 0) eqn:Ed.
  - unfold bind at 1 2. rewrite mode_init by exact Hm.
    cbn - [_write_byte write_byte_events].
    rewrite write_byte_eq with (sp := sp) by exact Hsp.
    cbn - [write_byte_events].
    rewrite write_byte_events_uint8, <- app_assoc. reflexivity.
  - unfold bind at 1 2. rewrite mode_init by exact Hm.
    cbn - [_write_byte write_byte_events].
    rewrite write_byte_eq with (sp := sp) by exact Hsp.
    cbn - [write_byte_events].
    rewrite write_byte_events_uint8, <- app_assoc.
    rewrite Z.gtb_ltb, Z.ltb_ge in Ed.
    replace (Z.abs (t - current_phase_counter s)) with (- (t - current_phase_counter s)) by lia.
    reflexivity.
Qed.

Lemma set_bucket_ok (c : config) (sp : Z) (s : ctrl) (b : Z) :
  mode_dict c = init_mode_dict ->
  dict_get (pin_dict c) "strobe" = Some sp ->
  cfg s = c ->
  b * 4 + offset_coarse s <= 255 ->
  set_bucket b s =
  (inr tt, with_target_bucket
             (with_hw s (hw s ++ write_byte_events c sp (b * 4 + offset_coarse s) 5)) b).
Proof.
  intros Hm Hsp Hc Hle. subst c.
  unfold set_bucket. unfold bind at 1. unfold get at 1. cbv beta iota.
  replace (b * 4 + offset_coarse s >? 255) with false
    by (symmetry; rewrite Z.gtb_ltb; apply Z.ltb_ge; lia).
  unfold bind at 1. rewrite mode_init by exact Hm.
  cbn - [_write_byte write_byte_events].
  unfold bind at 1. rewrite write_byte_eq with (sp := sp) by exact Hsp.
  reflexivity.
Qed.

(** ** Claims *)

(** C3: when [set_offset_fine(target)] passes its range check
    ([0 <= target] and [delta = target - current_phase_counter <= 255]),
    it writes [pause_trig] with 1, then [inc_phase] with [delta] if
    [delta > 0] and [dec_phase] with [|delta|] otherwise (the data byte on
    the lines being [np.uint8] of it, as [_write_byte] truncates), and
    nothing else (no [pause_trig] with 0); both [offset_fine] and
    [current_phase_counter] become [target], which is returned.  From
    [current_phase_counter = 0], [set_offset_fine(100)] then
    [set_offset_fine(30)] write the deltas +100 and -70 and
    [get_offset_fine()] returns 30. *)
Theorem set_offset_fine_sequence dp mp sp st c (s : ctrl) (t : Z) :
  make_config dp mp sp st = Some c ->
  cfg s = c ->
  0 <= t -> t - current_phase_counter s <= 255 ->
  set_offset_fine t s =
  (inr t,
   with_current_phase_counter
     (with_offset_fine
        (with_hw s (hw s ++ write_byte_events c sp 1 4 ++
                    (if t - current_phase_counter s >? 0
                     then write_byte_events c sp (t - current_phase_counter s) 1
                     else write_byte_events c sp (Z.abs (t - current_phase_counter s)) 2)))
        t) t) /\
  (current_phase_counter s = 0 ->
   let (r, s') := (_ <- set_offset_fine 100;; _ <- set_offset_fine 30;; get_offset_fine) s in
   r = inr 30 /\
   hw s' = hw s ++ write_byte_events c sp 1 4 ++ write_byte_events c sp 100 1
                ++ write_byte_events c sp 1 4 ++ write_byte_events c sp 70 2).
Proof.
  intros Hmk Hc H0 H255.
  destruct (make_config_inv _ _ _ _ _ Hmk) as (_ & Hsp & Hm & _ & _).
  split; [apply set_offset_fine_ok; assumption|].
  intros Hz. unfold bind at 1.
  rewrite (set_offset_fine_ok c sp s 100 Hm Hsp Hc) by lia.
  cbv beta iota. unfold bind at 1.
  rewrite (set_offset_fine_ok c sp _ 30 Hm Hsp);
    [| exact Hc | lia | cbn; lia].
  cbn - [write_byte_events]. rewrite ?Hz. cbn - [write_byte_events].
  split; [reflexivity|]. rewrite <- !app_assoc. reflexivity.
Qed.

Lemma set_offset_fine_sequence_witness :
  default_ctrl = inr default_state /\
  (set_offset_fine 100 default_state =
   (inr 100,
    with_current_phase_counter
      (with_offset_fine
         (with_hw default_state
            (hw default_state ++ write_byte_events (cfg default_state) 12 1 4 ++
             (if 100 - current_phase_counter default_state >? 0
              then write_byte_events (cfg default_state) 12
                     (100 - current_phase_counter default_state) 1
              else write_byte_events (cfg default_state) 12
                     (Z.abs (100 - current_phase_counter default_state)) 2)))
         100) 100) /\
   (current_phase_counter default_state = 0 ->
    let (r, s') := (_ <- set_offset_fine 100;; _ <- set_offset_fine 30;; get_offset_fine)
                     default_state in
    r = inr 30 /\
    hw s' = hw default_state ++ write_byte_events (cfg default_state) 12 1 4
              ++ write_byte_events (cfg default_state) 12 100 1
              ++ write_byte_events (cfg default_state) 12 1 4
              ++ write_byte_events (cfg default_state) 12 70 2)).
Proof.
  split; [vm_compute; reflexivity|].
  refine (set_offset_fine_sequence None [32; 22; 18; 16] 12 (5 # 1000)
            (cfg default_state) default_state 100 _ eq_refl _ _).
  - vm_compute. reflexivity.
  - lia.
  - vm_compute. discriminate.
Defined.

(** C6: if [b*4 + offset_coarse > 255], [set_bucket(b)] raises
    [ValueError] with the controller exactly as before the call: no GPIO
    event was logged and [get_bucket()] still returns the old bucket. *)
Theorem set_bucket_out_of_range (s : ctrl) (b : Z) :
  b * 4 + offset_coarse s > 255 ->
  set_bucket b s = (inl ValueError, s) /\
  hw (snd (set_bucket b s)) = hw s /\
  fst (get_bucket (snd (set_bucket b s))) = inr (target_bucket s).
Proof.
  intros Hgt.
  assert (E : set_bucket b s = (inl ValueError, s)).
  { unfold set_bucket, bind, get. cbv beta iota.
    replace (b * 4 + offset_coarse s >? 255) with true
      by (symmetry; rewrite Z.gtb_ltb; apply Z.ltb_lt; lia).
    reflexivity. }
  rewrite E. repeat split.
Qed.

Lemma set_bucket_out_of_range_witness :
  default_ctrl = inr default_state /\
  64 * 4 + offset_coarse default_state > 255 /\
  set_bucket 64 default_state = (inl ValueError, default_state) /\
  hw (snd (set_bucket 64 default_state)) = hw default_state /\
  fst (get_bucket (snd (set_bucket 64 default_state))) = inr (target_bucket default_state).
Proof.
  split; [vm_compute; reflexivity|].
  split; [vm_compute; reflexivity|].
  refine (set_bucket_out_of_range default_state 64 _). vm_compute. reflexivity.
Defined.

(** C7: after [set_bucket(b)] returns normally, [get_bucket()] is [b]. *)
Theorem set_bucket_get_bucket (s s' : ctrl) (b : Z) :
  set_bucket b s = (inr tt, s') -> fst (get_bucket s') = inr b.
Proof.
  unfold set_bucket, bind, get. cbv beta iota.
  destruct (b * 4 + offset_coarse s >? 255); [discriminate|].
  destruct (mode "bucket" s) as [[e|m] s1]; [discriminate|].
  destruct (_write_byte (b * 4 + offset_coarse s) m s1) as [[e|[]] s2];
    [discriminate|].
  intros H. inversion H. reflexivity.
Qed.

Lemma set_bucket_get_bucket_witness :
  default_ctrl = inr default_state /\
  set_bucket 3 default_state = (inr tt, snd (set_bucket 3 default_state)) /\
  fst (get_bucket (snd (set_bucket 3 default_state))) = inr 3.
Proof.
  split; [vm_compute; reflexivity|].
  split; [vm_compute; reflexivity|].
  refine (set_bucket_get_bucket default_state _ 3 _). vm_compute. reflexivity.
Defined.

(** C10: [write_window_raw] looks up [mode_dict["delay"]], a key the
    constructor never inserts, so it raises [KeyError] for every input
    before any GPIO call, leaving the controller unchanged. *)
Theorem write_window_raw_key_error dp mp sp st c (s : ctrl) (v : Z) :
  make_config dp mp sp st = Some c ->
  cfg s = c ->
  write_window_raw v s = (inl (KeyError "delay"), s).
Proof.
  intros Hmk Hc.
  destruct (make_config_inv _ _ _ _ _ Hmk) as (_ & _ & Hm & _ & _).
  subst c. unfold write_window_raw. unfold bind at 1.
  rewrite mode_init by exact Hm. reflexivity.
Qed.

Lemma write_window_raw_key_error_witness :
  default_ctrl = inr default_state /\
  write_window_raw 5 default_state = (inl (KeyError "delay"), default_state).
Proof.
  split; [vm_compute; reflexivity|].
  refine (write_window_raw_key_error None [32; 22; 18; 16] 12 (5 # 1000)
            (cfg default_state) default_state 5 _ eq_refl).
  vm_compute. reflexivity.
Defined.

(** The delay of index [i] as the spec describes the table: the sum of
    [taps[b]] over the bits [b] set in [i]. *)
Definition spec_delay_value (taps : list Z) (i : Z) : Z :=
  fold_right Z.add 0
    (map (fun b => if Z.testbit i (Z.of_nat b) then nth b taps 0 else 0) (seq 0 8)).

Lemma delay_entry (i : nat) :
  (i < 256)%nat ->
  np_sum (np_mul (rev (unpackbits (uint8 (Z.of_nat i)))) init_delay_bin) =
  spec_delay_value [16; 77; 140; 166; 231; 292; 343; 424] (Z.of_nat i).
Proof.
  intros Hi. unfold uint8. rewrite Z.mod_small by lia.
  generalize (Z.of_nat i) as x. intros x.
  unfold np_sum, np_mul, unpackbits, spec_delay_value, init_delay_bin.
  cbn - [Z.testbit].
  destruct (Z.testbit x 0), (Z.testbit x 1), (Z.testbit x 2), (Z.testbit x 3),
    (Z.testbit x 4), (Z.testbit x 5), (Z.testbit x 6), (Z.testbit x 7);
    reflexivity.
Qed.

Lemma delay_table_len dp mp sp st c :
  make_config dp mp sp st = Some c -> List.length (delay_array c) = 256%nat.
Proof.
  intros Hmk.
  destruct (make_config_inv _ _ _ _ _ Hmk) as (_ & _ & _ & _ & Hd).
  rewrite Hd. unfold build_delay_array. rewrite length_map, length_seq. reflexivity.
Qed.

(** C4: the delay table built by the constructor has 256 entries, and
    entry [i] is the sum of the taps (16, 77, 140, 166, 231, 292, 343,
    424 ps, indexed from bit 0) over the bits set in [i]. *)
Theorem delay_table_taps dp mp sp st c :
  make_config dp mp sp st = Some c ->
  List.length (delay_array c) = 256%nat /\
  forall i, (i < 256)%nat ->
  nth_error (delay_array c) i =
  Some (spec_delay_value [16; 77; 140; 166; 231; 292; 343; 424] (Z.of_nat i)).
Proof.
  intros Hmk.
  destruct (make_config_inv _ _ _ _ _ Hmk) as (_ & _ & _ & _ & Hd).
  split; [exact (delay_table_len _ _ _ _ _ Hmk)|].
  rewrite Hd. unfold build_delay_array.
  - intros i Hi. rewrite nth_error_map, nth_error_seq.
    replace (Nat.ltb i 256) with true by (symmetry; apply Nat.ltb_lt; exact Hi).
    cbn [option_map Nat.add]. rewrite delay_entry by exact Hi. reflexivity.
Qed.

Lemma delay_table_taps_witness :
  make_config None [32; 22; 18; 16] 12 (5 # 1000) = Some (cfg default_state) /\
  List.length (delay_array (cfg default_state)) = 256%nat /\
  (forall i, (i < 256)%nat ->
   nth_error (delay_array (cfg default_state)) i =
   Some (spec_delay_value [16; 77; 140; 166; 231; 292; 343; 424] (Z.of_nat i))).
Proof.
  assert (H : make_config None [32; 22; 18; 16] 12 (5 # 1000) = Some (cfg default_state))
    by (vm_compute; reflexivity).
  split; [exact H|].
  exact (delay_table_taps None [32; 22; 18; 16] 12 (5 # 1000) (cfg default_state) H).
Defined.

(** ** [np.argmin] returns the first minimal element *)

Lemma argmin_from_spec (l : list Q) (i bi : nat) (bv : Q) :
  (argmin_from l i bi bv = bi /\ forall y, In y l -> (bv <= y)%Q) \/
  (exists j v, argmin_from l i bi bv = (i + j)%nat /\ nth_error l j = Some v /\
     (v < bv)%Q /\ (forall y, In y l -> (v <= y)%Q) /\
     (forall k y, (k < j)%nat -> nth_error l k = Some y -> (v < y)%Q)).
Proof.
  revert i bi bv; induction l as [|x r IH]; intros i bi bv; cbn [argmin_from].
  - left. split; [reflexivity | intros y []].
  - destruct (Qle_bool bv x) eqn:E.
    + apply Qle_bool_iff in E.
      destruct (IH (S i) bi bv) as [[Hr Hall] | (j & v & Hr & Hj & Hv & Hall & Hfst)].
      * left. split; [exact Hr|]. intros y [<-|Hy]; [exact E | apply Hall, Hy].
      * right. exists (S j), v. split; [rewrite Hr; lia|].
        split; [exact Hj|]. split; [exact Hv|]. split.
        -- intros y [<-|Hy]; [apply Qlt_le_weak, (Qlt_le_trans _ bv); assumption
                            | apply Hall, Hy].
        -- intros [|k] y Hk Hy; cbn in Hy.
           ++ inversion Hy; subst. apply (Qlt_le_trans _ bv); assumption.
           ++ apply (Hfst k); [lia | exact Hy].
    + assert (Hx : (x < bv)%Q).
      { apply Qnot_le_lt. intros Hle. apply Qle_bool_iff in Hle. congruence. }
      right.
      destruct (IH (S i) i x) as [[Hr Hall] | (j & v & Hr & Hj & Hv & Hall & Hfst)].
      * exists O, x. split; [rewrite Hr; lia|]. split; [reflexivity|].
        split; [exact Hx|]. split.
        -- intros y [<-|Hy]; [apply Qle_refl | apply Hall, Hy].
        -- intros k y Hk. lia.
      * exists (S j), v. split; [rewrite Hr; lia|].
        split; [exact Hj|]. split; [apply (Qlt_trans _ x); assumption|]. split.
        -- intros y [<-|Hy]; [apply Qlt_le_weak; exact Hv | apply Hall, Hy].
        -- intros [|k] y Hk Hy; cbn in Hy.
           ++ inversion Hy; subst. exact Hv.
           ++ apply (Hfst k); [lia | exact Hy].
Qed.

Lemma argmin_spec (l : list Q) (k : nat) :
  argmin l = Some k ->
  exists v, nth_error l k = Some v /\
    (forall y, In y l -> (v <= y)%Q) /\
    (forall m y, (m < k)%nat -> nth_error l m = Some y -> (v < y)%Q).
Proof.
  destruct l as [|x r]; [discriminate|]. cbn [argmin]. intros H. inversion H as [Hk].
  destruct (argmin_from_spec r 1 0 x) as [[Hr Hall] | (j & v & Hr & Hj & Hv & Hall & Hfst)].
  - rewrite Hr. exists x. split; [reflexivity|]. split.
    + intros y [<-|Hy]; [apply Qle_refl | apply Hall, Hy].
    + intros m y Hm. lia.
  - rewrite Hr. exists v. split; [exact Hj|]. split.
    + intros y [<-|Hy]; [apply Qlt_le_weak; exact Hv | apply Hall, Hy].
    + intros [|m] y Hm Hy; cbn in Hy.
      * inversion Hy; subst. exact Hv.
      * apply (Hfst m); [lia | exact Hy].
Qed.

(** ** float64 rounding *)

Lemma two_nz : ~ (2 # 1 == 0)%Q.
Proof. discriminate. Qed.

Lemma pow2_pos (e : Z) : (0 < pow2 e)%Q.
Proof. apply Qpower_0_lt. reflexivity. Qed.

Lemma pow2_add (a b : Z) : (pow2 (a + b) == pow2 a * pow2 b)%Q.
Proof. apply Qpower_plus, two_nz. Qed.

Lemma pow2_le (a b : Z) : a <= b -> (pow2 a <= pow2 b)%Q.
Proof. intros H. apply Qpower_le_compat_l; [exact H | discriminate]. Qed.

Lemma pow2_lt (a b : Z) : a < b -> (pow2 a < pow2 b)%Q.
Proof. intros H. apply Qpower_lt_compat_l; [exact H | reflexivity]. Qed.

Lemma pow2_lt_inv (a b : Z) : (pow2 a < pow2 b)%Q -> a < b.
Proof.
  intros H. destruct (Z_lt_le_dec a b) as [|Hba]; [assumption|].
  exfalso. apply (Qlt_not_le _ _ H), pow2_le, Hba.
Qed.

Lemma pow2_Z (n : Z) : 0 <= n -> (pow2 n == inject_Z (2 ^ n))%Q.
Proof. intros H. unfold pow2. rewrite Zpower_Qpower by exact H. reflexivity. Qed.

Lemma pow2_opp (n : Z) : (pow2 (- n) == / pow2 n)%Q.
Proof. apply Qpower_opp. Qed.

Lemma pow2_0 : (pow2 0 == 1)%Q.
Proof. reflexivity. Qed.

(** [pow2 (p - q)] as a fraction of two powers of two, for [p, q >= 0]. *)
Lemma pow2_frac (p q : Z) : 0 <= p -> 0 <= q ->
  (pow2 (p - q) == inject_Z (2 ^ p) / inject_Z (2 ^ q))%Q.
Proof.
  intros Hp Hq. unfold Qdiv. rewrite <- !pow2_Z by assumption.
  rewrite <- pow2_opp, <- pow2_add. reflexivity.
Qed.

Lemma Qle_frac (A B n : Z) (d : positive) : 0 < B ->
  (inject_Z A / inject_Z B <= n # d)%Q <-> A * Zpos d <= n * B.
Proof.
  intros HB. destruct B as [|pB|pB]; try lia.
  unfold Qle, Qdiv, Qinv, Qmult, inject_Z. cbn [Qnum Qden]. lia.
Qed.

Lemma Qlt_frac (A B n : Z) (d : positive) : 0 < B ->
  (n # d < inject_Z A / inject_Z B)%Q <-> n * B < A * Zpos d.
Proof.
  intros HB. destruct B as [|pB|pB]; try lia.
  unfold Qlt, Qdiv, Qinv, Qmult, inject_Z. cbn [Qnum Qden]. lia.
Qed.

Lemma flog2_spec (x : Q) : (0 < x)%Q ->
  (pow2 (flog2 x) <= x)%Q /\ (x < pow2 (flog2 x + 1))%Q.
Proof.
  destruct x as [n d]. intros Hx.
  assert (Hn : 0 < n) by (unfold Qlt in Hx; cbn in Hx; lia).
  unfold flog2. cbn [Qnum Qden].
  set (a := Z.log2 n). set (b := Z.log2 (Zpos d)).
  destruct (Z.log2_spec n Hn) as [Hn1 Hn2].
  destruct (Z.log2_spec (Zpos d) eq_refl) as [Hd1 Hd2].
  fold a in Hn1, Hn2. fold b in Hd1, Hd2.
  assert (Ha : 0 <= a) by apply Z.log2_nonneg.
  assert (Hb : 0 <= b) by apply Z.log2_nonneg.
  assert (P1 : 0 < 2 ^ b) by (apply Z.pow_pos_nonneg; lia).
  assert (P2 : 0 < 2 ^ a) by (apply Z.pow_pos_nonneg; lia).
  rewrite Z.pow_succ_r in Hn2, Hd2 by lia.
  (* the two bounds the test chooses between *)
  assert (Hup : (n # d < pow2 (a - b + 1))%Q).
  { replace (a - b + 1) with ((a + 1) - b) by lia.
    rewrite pow2_frac by lia. apply Qlt_frac; [lia|].
    rewrite Z.pow_add_r by lia. nia. }
  assert (Hlo : (pow2 (a - b - 1) <= n # d)%Q).
  { replace (a - b - 1) with (a - (b + 1)) by lia.
    rewrite pow2_frac by lia. apply Qle_frac; [apply Z.pow_pos_nonneg; lia|].
    rewrite Z.pow_add_r by lia. nia. }
  destruct (Qle_bool (pow2 (a - b)) (n # d)) eqn:E.
  - apply Qle_bool_iff in E. split; assumption.
  - assert (E' : (n # d < pow2 (a - b))%Q).
    { apply Qnot_le_lt. intros H. apply Qle_bool_iff in H. congruence. }
    split; [exact Hlo|]. replace (a - b - 1 + 1) with (a - b) by lia. exact E'.
Qed.

Lemma round_ne_int (z : Z) : round_ne (inject_Z z) = z.
Proof.
  unfold round_ne. rewrite Qfloor_Z.
  assert (E : Qcompare (inject_Z z - inject_Z z) (1 # 2) = Lt).
  { unfold Qminus. rewrite (Qcompare_comp _ 0%Q (Qplus_opp_r _) (1 # 2) (1 # 2) (Qeq_refl _)). reflexivity. }
  rewrite E. reflexivity.
Qed.

Lemma Qfloor_resp_eq (x y : Q) : (x == y)%Q -> Qfloor x = Qfloor y.
Proof.
  intros H. apply Z.le_antisymm; apply Qfloor_resp_le; rewrite H; apply Qle_refl.
Qed.

Lemma round_ne_resp (x y : Q) : (x == y)%Q -> round_ne x = round_ne y.
Proof.
  intros H. unfold round_ne. rewrite (Qfloor_resp_eq x y H).
  assert (E : Qcompare (x - inject_Z (Qfloor y)) (1 # 2)
              = Qcompare (y - inject_Z (Qfloor y)) (1 # 2)).
  { apply Qcompare_comp; [rewrite H|]; reflexivity. }
  rewrite E. reflexivity.
Qed.

Lemma round_ne_ge (x : Q) (m : Z) : (inject_Z m <= x)%Q -> m <= round_ne x.
Proof.
  intros H. apply Qfloor_resp_le in H. rewrite Qfloor_Z in H.
  unfold round_ne. destruct (Qcompare _ _); [destruct (Z.even _)|..]; lia.
Qed.

Lemma pow2_nz (e : Z) : ~ (pow2 e == 0)%Q.
Proof. intros H. apply (Qlt_irrefl 0). rewrite <- H at 2. apply pow2_pos. Qed.

Lemma fl_pos_exact (x : Q) (N u : Z) :
  (x == inject_Z N * pow2 u)%Q -> 0 < N < 2 ^ 53 -> -1074 <= u -> (fl_pos x == x)%Q.
Proof.
  intros Hx HN Hu.
  assert (Hx0 : (0 < x)%Q).
  { rewrite Hx. apply Qmult_lt_0_compat; [|apply pow2_pos].
    change 0%Q with (inject_Z 0). rewrite <- Zlt_Qlt. lia. }
  assert (Hlt : (x < pow2 (u + 53))%Q).
  { rewrite Hx, Z.add_comm, pow2_add, (pow2_Z 53) by lia.
    apply Qmult_lt_compat_r; [apply pow2_pos|]. rewrite <- Zlt_Qlt. lia. }
  destruct (flog2_spec x Hx0) as [Hf _].
  assert (Hfl : flog2 x < u + 53) by (apply pow2_lt_inv, (Qle_lt_trans _ x); assumption).
  assert (He : fl_exp x <= u) by (unfold fl_exp; lia).
  assert (Hdiv : (x / pow2 (fl_exp x) == inject_Z (N * 2 ^ (u - fl_exp x)))%Q).
  { set (e := fl_exp x) in *. rewrite Hx at 1. rewrite inject_Z_mult, <- pow2_Z by lia.
    replace u with ((u - e) + e) at 1 by lia.
    rewrite pow2_add, Qmult_assoc. apply Qdiv_mult_l, pow2_nz. }
  unfold fl_pos. cbv zeta.
  rewrite (round_ne_resp _ _ Hdiv), round_ne_int.
  rewrite inject_Z_mult. rewrite <- pow2_Z by lia. rewrite <- Qmult_assoc, <- pow2_add.
  replace (u - fl_exp x + fl_exp x) with u by lia. symmetry. exact Hx.
Qed.

Lemma fl_pos_ge (x : Q) (p : Z) :
  (pow2 p <= x)%Q -> -1074 <= p -> (pow2 p <= fl_pos x)%Q.
Proof.
  intros Hx Hp.
  assert (Hx0 : (0 < x)%Q) by (apply (Qlt_le_trans _ (pow2 p)); [apply pow2_pos | exact Hx]).
  destruct (flog2_spec x Hx0) as [Hf _].
  set (e := fl_exp x). set (q := Z.max p e).
  assert (Hq : (pow2 q <= x)%Q).
  { unfold q. destruct (Z.max_spec p e) as [[Hpe ->]|[Hpe ->]]; [|exact Hx].
    apply (Qle_trans _ (pow2 (flog2 x))); [apply pow2_le | exact Hf].
    unfold e, fl_exp in *. lia. }
  assert (Hr : 2 ^ (q - e) <= round_ne (x / pow2 e)).
  { apply round_ne_ge. rewrite <- pow2_Z by lia.
    apply Qle_shift_div_l; [apply pow2_pos|]. rewrite <- pow2_add.
    replace (q - e + e) with q by lia. exact Hq. }
  unfold fl_pos. fold e.
  apply (Qle_trans _ (pow2 q)); [apply pow2_le; lia|].
  apply (Qle_trans _ (inject_Z (2 ^ (q - e)) * pow2 e)).
  - rewrite <- pow2_Z, <- pow2_add by lia. replace (q - e + e) with q by lia. apply Qle_refl.
  - apply Qmult_le_compat_r; [rewrite <- Zle_Qle; exact Hr | apply Qlt_le_weak, pow2_pos].
Qed.

Lemma Qmult_pow2_sign (M u : Z) :
  (0 < M -> (0 < inject_Z M * pow2 u)%Q) /\ (M < 0 -> (inject_Z M * pow2 u < 0)%Q).
Proof.
  split; intros H.
  - apply Qmult_lt_0_compat; [|apply pow2_pos].
    change 0%Q with (inject_Z 0). rewrite <- Zlt_Qlt. exact H.
  - assert (H' : (0 < inject_Z (- M) * pow2 u)%Q).
    { apply Qmult_lt_0_compat; [|apply pow2_pos].
      change 0%Q with (inject_Z 0). rewrite <- Zlt_Qlt. lia. }
    apply Qopp_lt_compat in H'.
    setoid_replace (inject_Z M * pow2 u)%Q with (- (inject_Z (- M) * pow2 u))%Q
      by (rewrite inject_Z_opp; ring).
    exact H'.
Qed.

Lemma fl64_exact (x : Q) (M u : Z) :
  (x == inject_Z M * pow2 u)%Q -> Z.abs M < 2 ^ 53 -> -1074 <= u -> (fl64 x == x)%Q.
Proof.
  intros Hx HM Hu. unfold fl64.
  destruct (Z.lt_trichotomy M 0) as [Hn|[Hz|Hp]].
  - assert (E : (x ?= 0)%Q = Lt).
    { apply Qlt_alt. rewrite Hx. apply (Qmult_pow2_sign M u), Hn. }
    rewrite E.
    assert (Hx' : (- x == inject_Z (- M) * pow2 u)%Q)
      by (rewrite Hx, inject_Z_opp; ring).
    rewrite (fl_pos_exact (- x) (- M) u Hx') by lia. apply Qopp_involutive.
  - subst M. assert (E : (x ?= 0)%Q = Eq).
    { apply Qeq_alt. rewrite Hx. ring. }
    rewrite E. rewrite Hx. ring.
  - assert (E : (x ?= 0)%Q = Gt).
    { apply Qgt_alt. rewrite Hx. apply (Qmult_pow2_sign M u), Hp. }
    rewrite E. apply (fl_pos_exact x M u Hx); lia.
Qed.

Lemma fl64_abs_ge (x : Q) (p : Z) :
  (pow2 p <= Qabs x)%Q -> -1074 <= p -> (pow2 p <= Qabs (fl64 x))%Q.
Proof.
  intros Hx Hp. unfold fl64.
  destruct (x ?= 0)%Q eqn:E.
  - apply Qeq_alt in E. rewrite E in Hx. exfalso.
    apply (Qlt_not_le _ _ (pow2_pos p)). exact Hx.
  - apply Qlt_alt in E. rewrite Qabs_neg in Hx by (apply Qlt_le_weak; exact E).
    pose proof (fl_pos_ge (- x) p Hx Hp) as H.
    rewrite Qabs_opp, Qabs_pos; [exact H|].
    apply (Qle_trans _ (pow2 p)); [apply Qlt_le_weak, pow2_pos | exact H].
  - apply Qgt_alt in E. rewrite Qabs_pos in Hx by (apply Qlt_le_weak; exact E).
    pose proof (fl_pos_ge x p Hx Hp) as H.
    rewrite Qabs_pos; [exact H|].
    apply (Qle_trans _ (pow2 p)); [apply Qlt_le_weak, pow2_pos | exact H].
Qed.

Lemma fl_pos_grid (y : Q) :
  (0 < y)%Q -> (fl_pos y == y)%Q -> (y < pow2 53)%Q ->
  exists D u, (y == inject_Z D * pow2 u)%Q /\ -1074 <= u <= 0 /\ (y < pow2 (u + 53))%Q.
Proof.
  intros Hy Hfix Hlt.
  destruct (flog2_spec y Hy) as [Hf1 Hf2].
  assert (Hf : flog2 y < 53) by (apply pow2_lt_inv, (Qle_lt_trans _ y); assumption).
  exists (round_ne (y / pow2 (fl_exp y))), (fl_exp y).
  split; [symmetry; exact Hfix|].
  split; [unfold fl_exp; lia|].
  apply (Qlt_le_trans _ _ _ Hf2). apply pow2_le. unfold fl_exp. lia.
Qed.

Lemma fl64_grid (d : Q) :
  (fl64 d == d)%Q -> (Qabs d < pow2 53)%Q ->
  exists D u, (d == inject_Z D * pow2 u)%Q /\ -1074 <= u <= 0 /\
              (Qabs d < pow2 (u + 53))%Q.
Proof.
  intros Hfix Hlt. unfold fl64 in Hfix.
  destruct (d ?= 0)%Q eqn:E.
  - apply Qeq_alt in E. exists 0, 0. split; [rewrite E; reflexivity|].
    split; [lia|]. exact Hlt.
  - apply Qlt_alt in E.
    assert (Hpos : (0 < - d)%Q).
    { apply (Qopp_lt_compat d 0) in E. exact E. }
    rewrite Qabs_neg in Hlt by (apply Qlt_le_weak; exact E).
    assert (Hfix' : (fl_pos (- d) == - d)%Q).
    { rewrite <- Hfix at 2. ring. }
    destruct (fl_pos_grid (- d) Hpos Hfix' Hlt) as (D & u & HD & Hu & Hb).
    exists (- D), u. split; [|split; [exact Hu|]].
    + rewrite inject_Z_opp. transitivity (- (inject_Z D * pow2 u))%Q; [|ring].
      rewrite <- HD. ring.
    + rewrite Qabs_neg by (apply Qlt_le_weak; exact E). exact Hb.
  - apply Qgt_alt in E.
    rewrite Qabs_pos in Hlt by (apply Qlt_le_weak; exact E).
    destruct (fl_pos_grid d E Hfix Hlt) as (D & u & HD & Hu & Hb).
    exists D, u. split; [exact HD|]. split; [exact Hu|].
    rewrite Qabs_pos by (apply Qlt_le_weak; exact E). exact Hb.
Qed.

Lemma cost_cases (d : Q) (D u : Z) :
  (d == inject_Z D * pow2 u)%Q -> -1074 <= u <= 0 -> (Qabs d < pow2 (u + 53))%Q ->
  forall t : Z,
    (Qabs (fl64 (inject_Z t - d)) == Qabs (inject_Z t - d))%Q \/
    ((pow2 (u + 53) <= Qabs (fl64 (inject_Z t - d)))%Q /\
     (pow2 (u + 53) <= Qabs (inject_Z t - d))%Q).
Proof.
  intros HD Hu Hb t.
  set (M := t * 2 ^ (- u) - D).
  assert (HM : (inject_Z t - d == inject_Z M * pow2 u)%Q).
  { assert (H1 : (pow2 (- u) * pow2 u == 1)%Q)
      by (rewrite <- pow2_add; replace (- u + u) with 0 by lia; reflexivity).
    unfold M, Z.sub. rewrite inject_Z_plus, inject_Z_opp, inject_Z_mult.
    rewrite <- pow2_Z by lia. rewrite HD.
    transitivity (inject_Z t * (pow2 (- u) * pow2 u) - inject_Z D * pow2 u)%Q;
      [rewrite H1|]; ring. }
  destruct (Z_lt_le_dec (Z.abs M) (2 ^ 53)) as [Hs|Hl].
  - left. rewrite (fl64_exact _ M u HM Hs) by lia. reflexivity.
  - assert (Hge : (pow2 (u + 53) <= Qabs (inject_Z t - d))%Q).
    { rewrite HM, Qabs_Qmult, (Qabs_pos (pow2 u)) by apply Qlt_le_weak, pow2_pos.
      rewrite Z.add_comm, pow2_add, (pow2_Z 53) by lia.
      apply Qmult_le_compat_r; [|apply Qlt_le_weak, pow2_pos].
      change (Qabs (inject_Z M)) with (inject_Z (Z.abs M)).
      rewrite <- Zle_Qle. exact Hl. }
    right. split; [apply fl64_abs_ge; [exact Hge | lia] | exact Hge].
Qed.

(** Among the float64 costs [np.abs(delay_array - delay)], the first
    minimal one is at the entry nearest to [delay] in exact arithmetic
    (lowest index on ties), when the table starts with the entry 0 and the
    delay is a float64 below [2^53] in magnitude: then every difference is
    either a float64 itself or at least [2^(u+53)], beyond the cost of the
    entry 0. *)
Lemma delay_costs_nearest (a : list Z) (d : Q) (k : nat) :
  nth_error a 0 = Some 0 ->
  (fl64 d == d)%Q -> (Qabs d < pow2 53)%Q ->
  argmin (delay_costs a d) = Some k ->
  exists t, nth_error a k = Some t /\
    (forall j u, nth_error a j = Some u ->
       (Qabs (inject_Z t - d) <= Qabs (inject_Z u - d))%Q) /\
    (forall j u, (j < k)%nat -> nth_error a j = Some u ->
       (Qabs (inject_Z t - d) < Qabs (inject_Z u - d))%Q).
Proof.
  intros H0 Hd Hb Ha.
  destruct (fl64_grid d Hd Hb) as (D & u & HD & Hu & Hdu).
  pose proof (cost_cases d D u HD Hu Hdu) as Hcc.
  set (B := pow2 (u + 53)) in *.
  destruct (argmin_spec _ _ Ha) as (v & Hv & Hmin & Hfst).
  unfold delay_costs in Hv, Hmin, Hfst. rewrite nth_error_map in Hv.
  destruct (nth_error a k) as [t|] eqn:Et; [|discriminate].
  cbn [option_map] in Hv. injection Hv as <-.
  assert (Hm0 : (Qabs (inject_Z 0 - d) == Qabs d)%Q).
  { rewrite <- (Qabs_opp d). apply Qabs_wd. ring. }
  assert (Hc0 : (Qabs (fl64 (inject_Z 0 - d)) == Qabs d)%Q).
  { destruct (Hcc 0) as [E|[_ E]]; [rewrite E; exact Hm0|].
    exfalso. rewrite Hm0 in E. exact (Qlt_not_le _ _ Hdu E). }
  assert (Hin : forall j z, nth_error a j = Some z ->
            In (Qabs (fl64 (inject_Z z - d))) (map (fun t => Qabs (fl64 (inject_Z t - d))) a)).
  { intros j z Hz. apply (in_map (fun t => Qabs (fl64 (inject_Z t - d)))).
    apply nth_error_In with j. exact Hz. }
  assert (Hk0 : (Qabs (fl64 (inject_Z t - d)) <= Qabs d)%Q).
  { rewrite <- Hc0. apply Hmin, (Hin 0%nat), H0. }
  assert (Hct : (Qabs (fl64 (inject_Z t - d)) == Qabs (inject_Z t - d))%Q).
  { destruct (Hcc t) as [E|[E _]]; [exact E|].
    exfalso. apply (Qlt_not_le _ _ Hdu). apply (Qle_trans _ _ _ E Hk0). }
  assert (Hmt : (Qabs (inject_Z t - d) <= Qabs d)%Q) by (rewrite <- Hct; exact Hk0).
  exists t. split; [reflexivity|]. split.
  - intros j z Hz. pose proof (Hmin _ (Hin j z Hz)) as Hle.
    destruct (Hcc z) as [E|[_ E]].
    + rewrite <- Hct, <- E. exact Hle.
    + apply (Qle_trans _ _ _ Hmt). apply Qlt_le_weak, (Qlt_le_trans _ _ _ Hdu E).
  - intros j z Hj Hz.
    assert (Hlt : (Qabs (fl64 (inject_Z t - d)) < Qabs (fl64 (inject_Z z - d)))%Q).
    { apply (Hfst j); [exact Hj|]. rewrite nth_error_map, Hz. reflexivity. }
    destruct (Hcc z) as [E|[_ E]].
    + rewrite <- Hct, <- E. exact Hlt.
    + apply (Qle_lt_trans _ _ _ Hmt), (Qlt_le_trans _ _ _ Hdu E).
Qed.

(** C5 (amended): for a requested delay that is a float64 of magnitude
    below [2^53] ps (the device server's range is 0..2000 ps),
    [set_window(delay)] picks the index [i] of the table entry [t] nearest
    to [delay] (no entry closer, every entry before [i] strictly farther,
    so the lowest index on ties), writes [i] under the [window] mode code,
    stores [t], and [get_window()] then returns [t].  The call does not
    raise. *)
Theorem set_window_nearest dp mp sp st c (s : ctrl) (d : Q) :
  make_config dp mp sp st = Some c ->
  cfg s = c ->
  (fl64 d == d)%Q ->
  (Qabs d < pow2 53)%Q ->
  exists i t,
    (i < 256)%nat /\
    nth_error (delay_array c) i = Some t /\
    (forall j u, nth_error (delay_array c) j = Some u ->
       (Qabs (inject_Z t - d) <= Qabs (inject_Z u - d))%Q) /\
    (forall j u, (j < i)%nat -> nth_error (delay_array c) j = Some u ->
       (Qabs (inject_Z t - d) < Qabs (inject_Z u - d))%Q) /\
    set_window d s =
      (inr tt, with_window (with_hw s (hw s ++ write_byte_events c sp (Z.of_nat i) 6)) t) /\
    fst (get_window (snd (set_window d s))) = inr t.
Proof.
  intros Hmk Hc Hfd Hbd.
  destruct (make_config_inv _ _ _ _ _ Hmk) as (_ & Hsp & Hm & _ & Hdel).
  pose proof (delay_table_len _ _ _ _ _ Hmk) as Hlen.
  destruct (argmin (delay_costs (delay_array c) d)) as [k|] eqn:Ea.
  2:{ exfalso. unfold delay_costs in Ea.
      destruct (delay_array c); [discriminate | discriminate]. }
  assert (H0 : nth_error (delay_array c) 0 = Some 0) by (rewrite Hdel; reflexivity).
  destruct (delay_costs_nearest _ _ _ H0 Hfd Hbd Ea) as (t & Et & Hmin & Hfst).
  assert (E : set_window d s =
            (inr tt, with_window (with_hw s (hw s ++ write_byte_events c sp (Z.of_nat k) 6)) t)).
  { subst c. unfold set_window. unfold bind at 1. unfold get at 1. cbv beta iota.
    rewrite Ea. unfold lift_opt at 1. unfold bind at 1, ret at 1. cbv beta iota.
    rewrite Et. unfold lift_opt, bind at 1, ret at 1. cbv beta iota.
    unfold bind at 1. rewrite mode_init by exact Hm.
    cbn - [_write_byte write_byte_events].
    unfold bind at 1. rewrite write_byte_eq with (sp := sp) by exact Hsp.
    reflexivity. }
  exists k, t. split.
  { rewrite <- Hlen. apply nth_error_Some. rewrite Et. discriminate. }
  split; [exact Et|]. split; [exact Hmin|]. split; [exact Hfst|].
  split; [exact E|]. rewrite E. reflexivity.
Qed.

Lemma set_window_nearest_witness :
  make_config None [32; 22; 18; 16] 12 (5 # 1000) = Some (cfg default_state) /\
  (fl64 (3602879701896397 # 36028797018963968) == 3602879701896397 # 36028797018963968)%Q /\
  (Qabs (3602879701896397 # 36028797018963968) < pow2 53)%Q /\
  exists i t,
    (i < 256)%nat /\
    nth_error (delay_array (cfg default_state)) i = Some t /\
    (forall j u, nth_error (delay_array (cfg default_state)) j = Some u ->
       (Qabs (inject_Z t - (3602879701896397 # 36028797018963968))
        <= Qabs (inject_Z u - (3602879701896397 # 36028797018963968)))%Q) /\
    (forall j u, (j < i)%nat -> nth_error (delay_array (cfg default_state)) j = Some u ->
       (Qabs (inject_Z t - (3602879701896397 # 36028797018963968))
        < Qabs (inject_Z u - (3602879701896397 # 36028797018963968)))%Q) /\
    set_window (3602879701896397 # 36028797018963968) default_state =
      (inr tt, with_window (with_hw default_state
         (hw default_state ++ write_byte_events (cfg default_state) 12 (Z.of_nat i) 6)) t) /\
    fst (get_window (snd (set_window (3602879701896397 # 36028797018963968) default_state)))
      = inr t.
Proof.
  assert (H : make_config None [32; 22; 18; 16] 12 (5 # 1000) = Some (cfg default_state))
    by (vm_compute; reflexivity).
  assert (Hf : (fl64 (3602879701896397 # 36028797018963968)
                == 3602879701896397 # 36028797018963968)%Q)
    by (vm_compute; reflexivity).
  assert (Hb : (Qabs (3602879701896397 # 36028797018963968) < pow2 53)%Q)
    by (vm_compute; reflexivity).
  split; [exact H|]. split; [exact Hf|]. split; [exact Hb|].
  exact (set_window_nearest None [32; 22; 18; 16] 12 (5 # 1000) (cfg default_state)
           default_state (3602879701896397 # 36028797018963968) H eq_refl Hf Hb).
Defined.

(** C5, as stated, fails for large delays: the float64 [1e20] is a valid
    request, but every difference [t - 1e20] rounds to [-1e20] (the float64
    spacing there is 16384), so [np.argmin] returns index 0 and the window
    stored is 0 ps, although the entry 1689 ps at index 255 is nearer. *)
Lemma set_window_far_delay_not_nearest :
  (fl64 (inject_Z (10 ^ 20)) == inject_Z (10 ^ 20))%Q /\
  fst (get_window (snd (set_window (inject_Z (10 ^ 20)) default_state))) = inr 0 /\
  nth_error (delay_array (cfg default_state)) 255 = Some 1689 /\
  (Qabs (inject_Z 1689 - inject_Z (10 ^ 20)) < Qabs (inject_Z 0 - inject_Z (10 ^ 20)))%Q.
Proof.
  split; [vm_compute; reflexivity|].
  split; [vm_compute; reflexivity|].
  split; [vm_compute; reflexivity|].
  vm_compute. reflexivity.
Qed.

(** ** The write protocol *)

(** Level of bit [b] of [x]. *)
Definition bit_level (x : Z) (b : Z) : Z := if Z.testbit x b then 1 else 0.

Lemma bits_lsb_first (x : Z) :
  rev (unpackbits (uint8 x)) = map (bit_level x) [0; 1; 2; 3; 4; 5; 6; 7].
Proof.
  unfold unpackbits, uint8, bit_level. cbn [map rev app].
  change 256 with (2 ^ 8). rewrite !Z.mod_pow2_bits_low by lia. reflexivity.
Qed.

(** The sequence the spec describes, which also holds the strobe low for
    the settle time before returning. *)
Definition spec_write_events (c : config) (sp data mode_code : Z) : list gpio_event :=
  write_byte_events c sp data mode_code ++ [Sleep (strobe_time c)].

(** C8, as stated, fails: [_write_byte(0, 5)] on the default controller
    returns right after driving the strobe low, without the final
    settle-time hold. *)
Lemma write_byte_no_final_hold :
  hw (snd (_write_byte 0 5 default_state)) <>
  hw default_state ++ spec_write_events (cfg default_state) 12 0 5.
Proof.
  intros H. apply (f_equal (@List.length gpio_event)) in H.
  vm_compute in H. discriminate.
Qed.

(** C8 (amended): on a constructed controller, [_write_byte(data, mode)]
    makes one [gpio.output] call on the pins [d0..d7, mode0..mode3] with
    the 8 bits of [data] least significant first followed by the low 4
    bits of [mode] least significant first; then it sleeps the settle
    time, drives the strobe pin high, sleeps the settle time, drives the
    strobe pin low and returns (no hold after the strobe goes low). *)
Theorem write_byte_protocol dp mp sp st c (s : ctrl) (data mode_code : Z) :
  make_config dp mp sp st = Some c ->
  cfg s = c ->
  _write_byte data mode_code s =
  (inr tt, with_hw s (hw s ++
     [OutputList (data_pins_of dp ++ firstn 4 mp)
        (map (bit_level data) [0; 1; 2; 3; 4; 5; 6; 7] ++
         map (bit_level mode_code) [0; 1; 2; 3]);
      Sleep st; OutputPin sp 1; Sleep st; OutputPin sp 0])).
Proof.
  intros Hmk Hc.
  destruct (make_config_inv _ _ _ _ _ Hmk) as (Hpl & Hsp & _ & Hst & _).
  subst c. rewrite write_byte_eq with (sp := sp) by exact Hsp.
  unfold write_byte_events. rewrite Hpl, Hst, !bits_lsb_first. reflexivity.
Qed.

Lemma write_byte_protocol_witness :
  make_config None [32; 22; 18; 16] 12 (5 # 1000) = Some (cfg default_state) /\
  _write_byte 6 5 default_state =
  (inr tt, with_hw default_state (hw default_state ++
     [OutputList (data_pins_of None ++ firstn 4 [32; 22; 18; 16])
        (map (bit_level 6) [0; 1; 2; 3; 4; 5; 6; 7] ++ map (bit_level 5) [0; 1; 2; 3]);
      Sleep (5 # 1000); OutputPin 12 1; Sleep (5 # 1000); OutputPin 12 0])).
Proof.
  assert (H : make_config None [32; 22; 18; 16] 12 (5 # 1000) = Some (cfg default_state))
    by (vm_compute; reflexivity).
  split; [exact H|].
  exact (write_byte_protocol None [32; 22; 18; 16] 12 (5 # 1000) (cfg default_state)
           default_state 6 5 H eq_refl).
Defined.

(** ** Laser trigger source *)

Lemma set_laser_trig_eq (c : config) (sp : Z) (s : ctrl) (src : string) :
  mode_dict c = init_mode_dict ->
  dict_get (pin_dict c) "strobe" = Some sp ->
  cfg s = c ->
  set_laser_trig src s =
  (inr tt,
   with_hw (with_laser_trig s (if str_in "coin" (lower src) then 1 else 0))
     (hw s ++ write_byte_events c sp (if str_in "coin" (lower src) then 1 else 0) 7)).
Proof.
  intros Hm Hsp Hc. subst c. unfold set_laser_trig.
  destruct (str_in "coin" (lower src));
    unfold bind at 1 2; unfold modify at 1, get at 1; cbv beta iota;
    unfold bind at 1; rewrite mode_init by exact Hm;
    cbn - [_write_byte write_byte_events];
    rewrite write_byte_eq with (sp := sp) by exact Hsp; reflexivity.
Qed.

(** C9: [set_laser_trig(s)] stores 1 (COINCIDENCE) when [s.lower()]
    contains "coin" and 0 (MRF) otherwise, writes that bit under the
    [laser_trig_source] mode code, never raises, and [get_laser_trig()]
    then returns "COINCIDENCE" or "MRF" accordingly; in particular
    "coincidence_mode" gives "COINCIDENCE" and "mrf" gives "MRF". *)
Theorem set_laser_trig_source dp mp sp st c (s : ctrl) (src : string) :
  make_config dp mp sp st = Some c ->
  cfg s = c ->
  set_laser_trig src s =
  (inr tt,
   with_hw (with_laser_trig s (if str_in "coin" (lower src) then 1 else 0))
     (hw s ++ write_byte_events c sp (if str_in "coin" (lower src) then 1 else 0) 7)) /\
  fst (get_laser_trig (snd (set_laser_trig src s))) =
    inr (if str_in "coin" (lower src) then "COINCIDENCE"%string else "MRF"%string) /\
  fst (get_laser_trig (snd (set_laser_trig "coincidence_mode" s))) = inr "COINCIDENCE"%string /\
  fst (get_laser_trig (snd (set_laser_trig "mrf" s))) = inr "MRF"%string.
Proof.
  intros Hmk Hc.
  destruct (make_config_inv _ _ _ _ _ Hmk) as (_ & Hsp & Hm & _ & _).
  split; [apply set_laser_trig_eq; assumption|].
  rewrite !(set_laser_trig_eq c sp s _ Hm Hsp Hc).
  split; [destruct (str_in "coin" (lower src)); reflexivity|].
  split; reflexivity.
Qed.

Lemma set_laser_trig_source_witness :
  make_config None [32; 22; 18; 16] 12 (5 # 1000) = Some (cfg default_state) /\
  set_laser_trig "Coin" default_state =
  (inr tt,
   with_hw (with_laser_trig default_state (if str_in "coin" (lower "Coin") then 1 else 0))
     (hw default_state ++ write_byte_events (cfg default_state) 12
                            (if str_in "coin" (lower "Coin") then 1 else 0) 7)) /\
  fst (get_laser_trig (snd (set_laser_trig "Coin" default_state))) =
    inr (if str_in "coin" (lower "Coin") then "COINCIDENCE"%string else "MRF"%string) /\
  fst (get_laser_trig (snd (set_laser_trig "coincidence_mode" default_state))) =
    inr "COINCIDENCE"%string /\
  fst (get_laser_trig (snd (set_laser_trig "mrf" default_state))) = inr "MRF"%string.
Proof.
  assert (H : make_config None [32; 22; 18; 16] 12 (5 # 1000) = Some (cfg default_state))
    by (vm_compute; reflexivity).
  split; [exact H|].
  exact (set_laser_trig_source None [32; 22; 18; 16] 12 (5 # 1000) (cfg default_state)
           default_state "Coin" H eq_refl).
Defined.

(** ** Range checks of [set_offset_fine] and [set_offset_coarse] *)

(** C1 fails: from the default controller, [set_offset_fine(255)] and
    [set_offset_fine(300)] succeed and leave [current_phase_counter = 300];
    then [set_offset_fine(0)], whose [delta = -300] exceeds 255 in
    magnitude, does not raise: it writes [pause_trig] with 1 and
    [dec_phase] with [np.uint8(300) = 44] and returns 0. *)
Lemma set_offset_fine_negative_delta_unchecked :
  let s1 := snd (set_offset_fine 255 default_state) in
  let s2 := snd (set_offset_fine 300 s1) in
  fst (set_offset_fine 255 default_state) = inr 255 /\
  fst (set_offset_fine 300 s1) = inr 300 /\
  current_phase_counter s2 = 300 /\
  fst (set_offset_fine 0 s2) = inr 0 /\
  hw (snd (set_offset_fine 0 s2)) =
    hw s2 ++ write_byte_events (cfg s2) 12 1 4 ++ write_byte_events (cfg s2) 12 44 2.
Proof.
  vm_compute. repeat split.
Qed.

(** C2 fails for [set_offset_coarse]: after [set_bucket(1)] on the
    default controller, [set_offset_coarse(2)] checks [2 + 1*4 <= 255] but
    writes the byte 2 under the [bucket] mode code, not [1*4 + 2 = 6]. *)
Lemma set_offset_coarse_writes_coarse_only :
  let s1 := snd (set_bucket 1 default_state) in
  fst (set_bucket 1 default_state) = inr tt /\
  fst (set_offset_coarse 2 s1) = inr tt /\
  hw (snd (set_offset_coarse 2 s1)) = hw s1 ++ write_byte_events (cfg s1) 12 2 5 /\
  write_byte_events (cfg s1) 12 2 5 <> write_byte_events (cfg s1) 12 (1 * 4 + 2) 5.
Proof.
  vm_compute. split; [reflexivity|]. split; [reflexivity|]. split; [reflexivity|].
  discriminate.
Qed.

(** ** Further behaviour of the controller *)

Lemma set_ring_rf_source_eq (c : config) (sp : Z) (s : ctrl) (src : string) :
  mode_dict c = init_mode_dict ->
  dict_get (pin_dict c) "strobe" = Some sp ->
  cfg s = c ->
  set_ring_rf_source src s =
  (inr tt,
   with_hw (with_ring_rf s (if str_in "REV" (upper src) then 0 else 1))
     (hw s ++ write_byte_events c sp (if str_in "REV" (upper src) then 0 else 1) 8)).
Proof.
  intros Hm Hsp Hc. subst c. unfold set_ring_rf_source.
  destruct (str_in "REV" (upper src));
    unfold bind at 1 2; unfold modify at 1, get at 1; cbv beta iota;
    unfold bind at 1; rewrite mode_init by exact Hm;
    cbn - [_write_byte write_byte_events];
    rewrite write_byte_eq with (sp := sp) by exact Hsp; reflexivity.
Qed.

Lemma set_offset_coarse_ok (c : config) (sp : Z) (s : ctrl) (oc : Z) :
  mode_dict c = init_mode_dict ->
  dict_get (pin_dict c) "strobe" = Some sp ->
  cfg s = c ->
  oc + target_bucket s * 4 <= 255 ->
  set_offset_coarse oc s =
  (inr tt, with_offset_coarse (with_hw s (hw s ++ write_byte_events c sp oc 5)) oc).
Proof.
  intros Hm Hsp Hc Hle. subst c.
  unfold set_offset_coarse. unfold bind at 1. unfold get at 1. cbv beta iota.
  replace (oc + target_bucket s * 4 >? 255) with false
    by (symmetry; rewrite Z.gtb_ltb; apply Z.ltb_ge; lia).
  unfold bind at 1. rewrite mode_init by exact Hm.
  cbn - [_write_byte write_byte_events].
  unfold bind at 1. rewrite write_byte_eq with (sp := sp) by exact Hsp.
  reflexivity.
Qed.

Lemma set_offset_coarse_raise (s : ctrl) (oc : Z) :
  oc + target_bucket s * 4 > 255 -> set_offset_coarse oc s = (inl ValueError, s).
Proof.
  intros Hgt. unfold set_offset_coarse, bind, get. cbv beta iota.
  replace (oc + target_bucket s * 4 >? 255) with true
    by (symmetry; rewrite Z.gtb_ltb; apply Z.ltb_lt; lia).
  reflexivity.
Qed.

Lemma set_offset_fine_raise (s : ctrl) (t : Z) :
  t < 0 \/ t - current_phase_counter s > 255 ->
  set_offset_fine t s = (inl ValueError, s).
Proof.
  intros H. unfold set_offset_fine, bind, get. cbv beta iota.
  replace ((t <? 0) || (t - current_phase_counter s >? 255)) with true.
  - reflexivity.
  - symmetry. apply Bool.orb_true_iff. destruct H as [H|H].
    + left. apply Z.ltb_lt. exact H.
    + right. rewrite Z.gtb_ltb. apply Z.ltb_lt. lia.
Qed.

Lemma set_bucket_raise (s : ctrl) (b : Z) :
  b * 4 + offset_coarse s > 255 -> set_bucket b s = (inl ValueError, s).
Proof.
  intros Hgt. unfold set_bucket, bind, get. cbv beta iota.
  replace (b * 4 + offset_coarse s >? 255) with true
    by (symmetry; rewrite Z.gtb_ltb; apply Z.ltb_lt; lia).
  reflexivity.
Qed.

(** [set_window] on a constructed controller, given the index [np.argmin]
    returns. *)
Lemma set_window_ok (c : config) (sp : Z) (s : ctrl) (d : Q) :
  mode_dict c = init_mode_dict ->
  dict_get (pin_dict c) "strobe" = Some sp ->
  List.length (delay_array c) = 256%nat ->
  cfg s = c ->
  exists k t,
    argmin (delay_costs (delay_array c) d) = Some k /\
    nth_error (delay_array c) k = Some t /\
    set_window d s =
      (inr tt, with_window (with_hw s (hw s ++ write_byte_events c sp (Z.of_nat k) 6)) t).
Proof.
  intros Hm Hsp Hlen Hc.
  destruct (argmin (delay_costs (delay_array c) d)) as [k|] eqn:Ea.
  2:{ exfalso. unfold delay_costs in Ea.
      destruct (delay_array c); [discriminate | discriminate]. }
  destruct (argmin_spec _ _ Ea) as (v & Hv & _ & _).
  unfold delay_costs in Hv. rewrite nth_error_map in Hv.
  destruct (nth_error (delay_array c) k) as [t|] eqn:Et; [|discriminate].
  exists k, t. split; [reflexivity|]. split; [exact Et|].
  subst c. unfold set_window. unfold bind at 1. unfold get at 1. cbv beta iota.
  rewrite Ea. unfold lift_opt at 1. unfold bind at 1, ret at 1. cbv beta iota.
  rewrite Et. unfold lift_opt, bind at 1, ret at 1. cbv beta iota.
  unfold bind at 1. rewrite mode_init by exact Hm.
  cbn - [_write_byte write_byte_events].
  unfold bind at 1. rewrite write_byte_eq with (sp := sp) by exact Hsp.
  reflexivity.
Qed.

(** ** The constructor *)

(** The controller [__init__] returns: the attributes after the five
    initial setter calls and the GPIO log of [init_gpio] and those
    calls. *)
Definition initial_ctrl (c : config) (sp : Z) : ctrl :=
  {| cfg := c; current_phase_counter := 0; phase_adv := 23 # 1000000000000;
     target_bucket := 0; window := 0; laser_trig := 1; ring_rf := 0;
     offset_fine := 0; offset_coarse := 0;
     hw := init_gpio_events c ++ write_byte_events c sp 0 5 ++ write_byte_events c sp 0 6
           ++ write_byte_events c sp 1 4 ++ write_byte_events c sp 0 2
           ++ write_byte_events c sp 0 8 ++ write_byte_events c sp 1 7 |}.

Lemma ctor_ok dp mp sp st c :
  make_config dp mp sp st = Some c ->
  RPiCoincidenceController dp mp sp st = inr (initial_ctrl c sp).
Proof.
  intros Hmk.
  destruct (make_config_inv _ _ _ _ _ Hmk) as (_ & Hsp & Hm & _ & Hd).
  pose proof (delay_table_len _ _ _ _ _ Hmk) as Hlen.
  unfold RPiCoincidenceController. rewrite Hmk. cbv zeta. unfold init_calls.
  unfold bind at 1.
  match goal with |- context [set_bucket ?b ?s1] =>
    rewrite (set_bucket_ok c sp s1 b Hm Hsp eq_refl) by (cbn; lia) end.
  cbv beta iota. unfold bind at 1.
  match goal with |- context [set_window ?d ?s1] =>
    destruct (set_window_ok c sp s1 d Hm Hsp Hlen eq_refl) as (k & t & Ea & Et & E);
    rewrite E end.
  rewrite Hd in Ea, Et. vm_compute in Ea. inversion Ea; subst k.
  vm_compute in Et. inversion Et; subst t.
  cbv beta iota. unfold bind at 1.
  match goal with |- context [set_offset_fine ?o ?s1] =>
    rewrite (set_offset_fine_ok c sp s1 o Hm Hsp eq_refl) by (cbn; lia) end.
  cbv beta iota. unfold bind at 1.
  match goal with |- context [set_ring_rf_source ?src ?s1] =>
    rewrite (set_ring_rf_source_eq c sp s1 src Hm Hsp eq_refl) end.
  cbv beta iota.
  match goal with |- context [set_laser_trig ?src ?s1] =>
    rewrite (set_laser_trig_eq c sp s1 src Hm Hsp eq_refl) end.
  cbn - [write_byte_events init_gpio_events].
  unfold initial_ctrl. rewrite <- !app_assoc. reflexivity.
Qed.

(** ** Reachable controllers *)

(** The public methods of the controller, as calls a client makes. *)
Inductive call :=
| CSetBucket (b : Z)
| CGetBucket
| CWriteWindowRaw (v : Z)
| CSetWindow (d : Q)
| CGetWindow
| CSetLaserTrig (src : string)
| CGetLaserTrig
| CSetRingRfSource (src : string)
| CGetRingRfSource
| CSetOffsetFine (t : Z)
| CGetOffsetFine
| CSetOffsetCoarse (oc : Z)
| CGetOffsetCoarse
| CSetAvgPhaseAdvance (p : Q).

Definition run_call (k : call) : M ctrl unit :=
  match k with
  | CSetBucket b => set_bucket b
  | CGetBucket => _ <- get_bucket;; ret tt
  | CWriteWindowRaw v => write_window_raw v
  | CSetWindow d => set_window d
  | CGetWindow => _ <- get_window;; ret tt
  | CSetLaserTrig src => set_laser_trig src
  | CGetLaserTrig => _ <- get_laser_trig;; ret tt
  | CSetRingRfSource src => set_ring_rf_source src
  | CGetRingRfSource => _ <- get_ring_rf_source;; ret tt
  | CSetOffsetFine t => _ <- set_offset_fine t;; ret tt
  | CGetOffsetFine => _ <- get_offset_fine;; ret tt
  | CSetOffsetCoarse oc => set_offset_coarse oc
  | CGetOffsetCoarse => _ <- get_offset_coarse;; ret tt
  | CSetAvgPhaseAdvance p => set_avg_phase_advance p
  end.

(** A controller returned by the constructor, then used by any sequence of
    calls; a call that raises leaves the object in the state it raised
    in, and the client may go on using it. *)
Inductive reachable : ctrl -> Prop :=
| reachable_init dp mp sp st s :
    RPiCoincidenceController dp mp sp st = inr s -> reachable s
| reachable_step s k :
    reachable s -> reachable (snd (run_call k s)).

(** What every reachable controller satisfies. *)
Definition ctrl_inv (s : ctrl) : Prop :=
  (exists dp mp sp st, make_config dp mp sp st = Some (cfg s)) /\
  offset_fine s = current_phase_counter s /\
  0 <= current_phase_counter s /\
  target_bucket s * 4 + offset_coarse s <= 255 /\
  (laser_trig s = 0 \/ laser_trig s = 1) /\
  (ring_rf s = 0 \/ ring_rf s = 1) /\
  In (window s) (delay_array (cfg s)).

Lemma ctrl_inv_init dp mp sp st s :
  RPiCoincidenceController dp mp sp st = inr s -> ctrl_inv s.
Proof.
  intros H.
  destruct (make_config dp mp sp st) as [c|] eqn:Hmk.
  2:{ unfold RPiCoincidenceController in H. rewrite Hmk in H. discriminate. }
  rewrite (ctor_ok _ _ _ _ _ Hmk) in H. inversion H; subst s.
  destruct (make_config_inv _ _ _ _ _ Hmk) as (_ & _ & _ & _ & Hd).
  unfold ctrl_inv, initial_ctrl. cbn [cfg offset_fine current_phase_counter
    target_bucket offset_coarse laser_trig ring_rf window].
  split; [exists dp, mp, sp, st; exact Hmk|].
  split; [reflexivity|]. split; [lia|]. split; [lia|].
  split; [right; reflexivity|]. split; [left; reflexivity|].
  rewrite Hd. vm_compute. left. reflexivity.
Qed.

Ltac inv_close :=
  cbn [snd cfg offset_fine current_phase_counter target_bucket offset_coarse
       laser_trig ring_rf window with_hw with_target_bucket with_window
       with_laser_trig with_ring_rf with_offset_fine with_current_phase_counter
       with_offset_coarse with_phase_adv];
  repeat split; try assumption; try lia.

Lemma ctrl_inv_step (s : ctrl) (k : call) :
  ctrl_inv s -> ctrl_inv (snd (run_call k s)).
Proof.
  intros Hi. pose proof Hi as Hi'.
  destruct Hi as (Hcfg & Hf & Hc0 & Hb & Hl & Hr & Hw).
  destruct Hcfg as (dp & mp & sp & st & Hmk).
  destruct (make_config_inv _ _ _ _ _ Hmk) as (_ & Hsp & Hm & _ & _).
  pose proof (delay_table_len _ _ _ _ _ Hmk) as Hlen.
  destruct k as [b| |v|d| |src| |src| |t| |oc| |p]; cbn [run_call];
    try (unfold bind, get_bucket, get_window, get_laser_trig, get_ring_rf_source,
           get_offset_fine, get_offset_coarse, get, ret; cbn [snd]; exact Hi').
  - destruct (Z_le_gt_dec (b * 4 + offset_coarse s) 255) as [Hle|Hgt].
    + rewrite (set_bucket_ok (cfg s) sp s b Hm Hsp eq_refl Hle).
      unfold ctrl_inv; split; [exists dp, mp, sp, st; exact Hmk|]. inv_close.
    + rewrite (set_bucket_raise s b Hgt). exact Hi'.
  - unfold write_window_raw. unfold bind at 1.
    rewrite mode_init by exact Hm. exact Hi'.
  - destruct (set_window_ok (cfg s) sp s d Hm Hsp Hlen eq_refl)
      as (i & t & _ & Et & E).
    rewrite E. unfold ctrl_inv; split; [exists dp, mp, sp, st; exact Hmk|]. inv_close.
    apply nth_error_In with i. exact Et.
  - rewrite (set_laser_trig_eq (cfg s) sp s src Hm Hsp eq_refl).
    unfold ctrl_inv; split; [exists dp, mp, sp, st; exact Hmk|]. inv_close.
    destruct (str_in "coin" (lower src)); [right|left]; reflexivity.
  - rewrite (set_ring_rf_source_eq (cfg s) sp s src Hm Hsp eq_refl).
    unfold ctrl_inv; split; [exists dp, mp, sp, st; exact Hmk|]. inv_close.
    destruct (str_in "REV" (upper src)); [left|right]; reflexivity.
  - unfold bind at 1.
    destruct (Z_lt_le_dec t 0) as [Hn|Hn];
      [|destruct (Z_lt_le_dec 255 (t - current_phase_counter s)) as [Hd|Hd]].
    + rewrite (set_offset_fine_raise s t) by (left; exact Hn). exact Hi'.
    + rewrite (set_offset_fine_raise s t) by (right; lia). exact Hi'.
    + rewrite (set_offset_fine_ok (cfg s) sp s t Hm Hsp eq_refl Hn Hd).
      unfold ret. unfold ctrl_inv; split; [exists dp, mp, sp, st; exact Hmk|]. inv_close.
  - destruct (Z_le_gt_dec (oc + target_bucket s * 4) 255) as [Hle|Hgt].
    + rewrite (set_offset_coarse_ok (cfg s) sp s oc Hm Hsp eq_refl Hle).
      unfold ctrl_inv; split; [exists dp, mp, sp, st; exact Hmk|]. inv_close.
    + rewrite (set_offset_coarse_raise s oc Hgt). exact Hi'.
Qed.

Lemma make_config_pin_dict dp mp sp st c :
  make_config dp mp sp st = Some c ->
  map snd (pin_dict c) = data_pins_of dp ++ firstn 4 mp ++ [sp].
Proof.
  unfold make_config. intros H.
  destruct (match dp with
            | None => Some [29; 31; 33; 35; 37; 40; 38; 36]
            | Some l => take_indexed l (seq 0 8)
            end) as [dps|] eqn:Edp; [|discriminate].
  destruct (take_indexed mp (seq 0 4)) as [mps|] eqn:Emp; [|discriminate].
  assert (Hdp : dps = data_pins_of dp).
  { destruct dp as [l|].
    - apply take_indexed_seq in Edp. exact Edp.
    - inversion Edp; reflexivity. }
  assert (Ld : List.length dps = 8%nat).
  { destruct dp as [l|]; [apply take_indexed_length in Edp; exact Edp
                         | inversion Edp; reflexivity]. }
  pose proof (take_indexed_length _ _ _ Emp) as Lm.
  apply take_indexed_seq in Emp. rewrite <- Emp, <- Hdp.
  do 8 (destruct dps as [|? dps]; [discriminate|]).
  destruct dps; [|discriminate].
  do 4 (destruct mps as [|? mps]; [discriminate|]).
  destruct mps; [|discriminate].
  cbn - [build_delay_array] in H. inversion H; subst. reflexivity.
Qed.

Lemma take_indexed_seq_some (l : list Z) (n k : nat) :
  (k + n <= List.length l)%nat -> exists xs, take_indexed l (seq k n) = Some xs.
Proof.
  revert k; induction n as [|n IH]; intros k Hk; cbn.
  - eexists; reflexivity.
  - destruct (nth_error l k) eqn:E.
    + destruct (IH (S k)) as [xs Hxs]; [lia|]. rewrite Hxs. eexists; reflexivity.
    + apply nth_error_None in E. lia.
Qed.

Lemma take_indexed_seq_none (l : list Z) (n k : nat) :
  (List.length l < k + n)%nat -> (0 < n)%nat -> take_indexed l (seq k n) = None.
Proof.
  revert k; induction n as [|n IH]; intros k Hk Hn; [lia|]. cbn.
  destruct (nth_error l k) eqn:E; [|reflexivity].
  assert (Hkl : (k < List.length l)%nat) by (apply nth_error_Some; congruence).
  rewrite (IH (S k)) by lia. reflexivity.
Qed.

(** X: on any pin lists long enough, [__init__] returns a controller with
    bucket 0, window 0 ps, laser trigger 1 (COINCIDENCE), ring RF 0
    (REV_CLOCK), fine and coarse offsets 0 and phase counter 0; its GPIO
    log starts with [setmode] and a [setup] of every data, mode and strobe
    pin (14 events), followed by the six writes of the initial setter calls:
    bucket byte 0, window index 0, [pause_trig] 1, [dec_phase] 0, ring RF
    0 and laser trigger 1. *)
Theorem constructor_initial_state dp mp sp st c :
  make_config dp mp sp st = Some c ->
  RPiCoincidenceController dp mp sp st =
    inr {| cfg := c; current_phase_counter := 0; phase_adv := 23 # 1000000000000;
           target_bucket := 0; window := 0; laser_trig := 1; ring_rf := 0;
           offset_fine := 0; offset_coarse := 0;
           hw := init_gpio_events c ++ write_byte_events c sp 0 5
                 ++ write_byte_events c sp 0 6 ++ write_byte_events c sp 1 4
                 ++ write_byte_events c sp 0 2 ++ write_byte_events c sp 0 8
                 ++ write_byte_events c sp 1 7 |} /\
  List.length (init_gpio_events c) = 14%nat /\
  hd_error (init_gpio_events c) = Some SetMode /\
  (forall p, In p (data_pins_of dp ++ firstn 4 mp ++ [sp]) ->
     In (Setup p) (init_gpio_events c)).
Proof.
  intros Hmk. split; [exact (ctor_ok _ _ _ _ _ Hmk)|].
  pose proof (make_config_pin_dict _ _ _ _ _ Hmk) as Hpd.
  split.
  - unfold init_gpio_events. cbn [List.length]. rewrite length_map.
    rewrite <- (length_map snd), Hpd, !length_app.
    destruct dp as [l|].
    + unfold make_config in Hmk.
      destruct (take_indexed l (seq 0 8)) as [xs|] eqn:E1; [|discriminate].
      destruct (take_indexed mp (seq 0 4)) as [ys|] eqn:E2; [|discriminate].
      pose proof (take_indexed_length _ _ _ E1) as L1.
      pose proof (take_indexed_length _ _ _ E2) as L2.
      apply take_indexed_seq in E1, E2. cbn [data_pins_of].
      rewrite <- E1, <- E2, L1, L2. reflexivity.
    + unfold make_config in Hmk.
      destruct (take_indexed mp (seq 0 4)) as [ys|] eqn:E2; [|discriminate].
      pose proof (take_indexed_length _ _ _ E2) as L2.
      apply take_indexed_seq in E2. rewrite <- E2, L2. reflexivity.
  - split; [reflexivity|].
    intros p Hp. unfold init_gpio_events. right.
    rewrite <- Hpd in Hp. apply in_map_iff in Hp. destruct Hp as (kv & <- & Hkv).
    apply (in_map (fun kv => Setup (snd kv))). exact Hkv.
Qed.

Lemma constructor_initial_state_witness :
  make_config None [32; 22; 18; 16] 12 (5 # 1000) = Some (cfg default_state) /\
  RPiCoincidenceController None [32; 22; 18; 16] 12 (5 # 1000) =
    inr {| cfg := cfg default_state; current_phase_counter := 0;
           phase_adv := 23 # 1000000000000;
           target_bucket := 0; window := 0; laser_trig := 1; ring_rf := 0;
           offset_fine := 0; offset_coarse := 0;
           hw := init_gpio_events (cfg default_state)
                 ++ write_byte_events (cfg default_state) 12 0 5
                 ++ write_byte_events (cfg default_state) 12 0 6
                 ++ write_byte_events (cfg default_state) 12 1 4
                 ++ write_byte_events (cfg default_state) 12 0 2
                 ++ write_byte_events (cfg default_state) 12 0 8
                 ++ write_byte_events (cfg default_state) 12 1 7 |} /\
  List.length (init_gpio_events (cfg default_state)) = 14%nat /\
  hd_error (init_gpio_events (cfg default_state)) = Some SetMode /\
  (forall p, In p (data_pins_of None ++ firstn 4 [32; 22; 18; 16] ++ [12]) ->
     In (Setup p) (init_gpio_events (cfg default_state))).
Proof.
  assert (H : make_config None [32; 22; 18; 16] 12 (5 # 1000) = Some (cfg default_state))
    by (vm_compute; reflexivity).
  split; [exact H|].
  exact (constructor_initial_state None [32; 22; 18; 16] 12 (5 # 1000)
           (cfg default_state) H).
Defined.

(** X: the constructor raises [IndexError] exactly when fewer than 4 mode
    pins are given, or data pins are given and there are fewer than 8 of
    them. *)
Theorem constructor_index_error dp mp sp st :
  RPiCoincidenceController dp mp sp st = inl IndexError <->
  (List.length mp < 4)%nat \/ (exists l, dp = Some l /\ (List.length l < 8)%nat).
Proof.
  split.
  - intros H.
    destruct (make_config dp mp sp st) as [c|] eqn:Hmk.
    + rewrite (ctor_ok _ _ _ _ _ Hmk) in H. discriminate.
    + destruct (Nat.lt_ge_cases (List.length mp) 4) as [Hm|Hm]; [left; exact Hm|].
      right. destruct dp as [l|].
      * exists l. split; [reflexivity|].
        destruct (Nat.lt_ge_cases (List.length l) 8) as [Hl|Hl]; [exact Hl|].
        exfalso. unfold make_config in Hmk.
        destruct (take_indexed_seq_some l 8 0) as [xs Hxs]; [lia|].
        destruct (take_indexed_seq_some mp 4 0) as [ys Hys]; [lia|].
        rewrite Hxs, Hys in Hmk.
        pose proof (take_indexed_length _ _ _ Hxs) as Lx.
        pose proof (take_indexed_length _ _ _ Hys) as Ly.
        do 8 (destruct xs as [|? xs]; [discriminate|]).
        destruct xs; [|discriminate].
        do 4 (destruct ys as [|? ys]; [discriminate|]).
        destruct ys; [|discriminate].
        cbn - [build_delay_array] in Hmk. discriminate.
      * exfalso. unfold make_config in Hmk.
        destruct (take_indexed_seq_some mp 4 0) as [ys Hys]; [lia|].
        rewrite Hys in Hmk.
        pose proof (take_indexed_length _ _ _ Hys) as Ly.
        do 4 (destruct ys as [|? ys]; [discriminate|]).
        destruct ys; [|discriminate].
        cbn - [build_delay_array] in Hmk. discriminate.
  - intros H. unfold RPiCoincidenceController, make_config.
    destruct H as [Hm | (l & -> & Hl)].
    + rewrite (take_indexed_seq_none mp 4 0) by lia.
      destruct dp as [l|]; [destruct (take_indexed l (seq 0 8))|]; reflexivity.
    + rewrite (take_indexed_seq_none l 8 0) by lia. reflexivity.
Qed.

(** X: every controller obtained from the constructor followed by any
    sequence of public method calls (some of which may have raised) keeps:
    [offset_fine = current_phase_counter >= 0], [target_bucket*4 +
    offset_coarse <= 255], laser trigger and ring RF in {0, 1}, and the
    stored window is an entry of the delay table. *)
Theorem reachable_ctrl_inv (s : ctrl) : reachable s -> ctrl_inv s.
Proof.
  induction 1 as [dp mp sp st s H | s k _ IH].
  - exact (ctrl_inv_init _ _ _ _ _ H).
  - exact (ctrl_inv_step s k IH).
Qed.

Lemma reachable_ctrl_inv_witness :
  reachable (snd (run_call (CSetOffsetFine 7) default_state)) /\
  ctrl_inv (snd (run_call (CSetOffsetFine 7) default_state)).
Proof.
  assert (H : reachable (snd (run_call (CSetOffsetFine 7) default_state))).
  { apply reachable_step. apply (reachable_init None [32; 22; 18; 16] 12 (5 # 1000)).
    vm_compute. reflexivity. }
  split; [exact H|]. exact (reachable_ctrl_inv _ H).
Defined.

(** X: [set_ring_rf_source(s)] stores 0 (REV_CLOCK) when [s.upper()]
    contains "REV" and 1 (100MHZ) otherwise, writes that bit under the
    [ring_rf_source] mode code without raising, and
    [get_ring_rf_source()] then returns "REV_CLOCK" or "100MHZ"
    accordingly. *)
Theorem set_ring_rf_source_select dp mp sp st c (s : ctrl) (src : string) :
  make_config dp mp sp st = Some c ->
  cfg s = c ->
  set_ring_rf_source src s =
  (inr tt,
   with_hw (with_ring_rf s (if str_in "REV" (upper src) then 0 else 1))
     (hw s ++ write_byte_events c sp (if str_in "REV" (upper src) then 0 else 1) 8)) /\
  fst (get_ring_rf_source (snd (set_ring_rf_source src s))) =
    inr (if str_in "REV" (upper src) then "REV_CLOCK"%string else "100MHZ"%string).
Proof.
  intros Hmk Hc.
  destruct (make_config_inv _ _ _ _ _ Hmk) as (_ & Hsp & Hm & _ & _).
  rewrite (set_ring_rf_source_eq c sp s src Hm Hsp Hc).
  split; [reflexivity|]. destruct (str_in "REV" (upper src)); reflexivity.
Qed.

Lemma set_ring_rf_source_select_witness :
  make_config None [32; 22; 18; 16] 12 (5 # 1000) = Some (cfg default_state) /\
  set_ring_rf_source "rev" default_state =
  (inr tt,
   with_hw (with_ring_rf default_state (if str_in "REV" (upper "rev") then 0 else 1))
     (hw default_state ++ write_byte_events (cfg default_state) 12
                            (if str_in "REV" (upper "rev") then 0 else 1) 8)) /\
  fst (get_ring_rf_source (snd (set_ring_rf_source "rev" default_state))) =
    inr (if str_in "REV" (upper "rev") then "REV_CLOCK"%string else "100MHZ"%string).
Proof.
  assert (H : make_config None [32; 22; 18; 16] 12 (5 # 1000) = Some (cfg default_state))
    by (vm_compute; reflexivity).
  split; [exact H|].
  exact (set_ring_rf_source_select None [32; 22; 18; 16] 12 (5 # 1000)
           (cfg default_state) default_state "rev" H eq_refl).
Defined.

(** X: when [0 <= offset_coarse <= 255] and
    [offset_coarse + target_bucket*4 <= 255],
    [set_offset_coarse(offset_coarse)] writes [offset_coarse] alone under
    the [bucket] mode code, changes no other attribute, and
    [get_offset_coarse()] then returns it. *)
Theorem set_offset_coarse_accepts dp mp sp st c (s : ctrl) (oc : Z) :
  make_config dp mp sp st = Some c ->
  cfg s = c ->
  0 <= oc <= 255 ->
  oc + target_bucket s * 4 <= 255 ->
  set_offset_coarse oc s =
    (inr tt, with_offset_coarse (with_hw s (hw s ++ write_byte_events c sp oc 5)) oc) /\
  fst (get_offset_coarse (snd (set_offset_coarse oc s))) = inr oc.
Proof.
  intros Hmk Hc _ Hle.
  destruct (make_config_inv _ _ _ _ _ Hmk) as (_ & Hsp & Hm & _ & _).
  rewrite (set_offset_coarse_ok c sp s oc Hm Hsp Hc Hle).
  split; reflexivity.
Qed.

Lemma set_offset_coarse_accepts_witness :
  make_config None [32; 22; 18; 16] 12 (5 # 1000) = Some (cfg default_state) /\
  0 <= 3 <= 255 /\
  3 + target_bucket default_state * 4 <= 255 /\
  set_offset_coarse 3 default_state =
    (inr tt, with_offset_coarse (with_hw default_state
       (hw default_state ++ write_byte_events (cfg default_state) 12 3 5)) 3) /\
  fst (get_offset_coarse (snd (set_offset_coarse 3 default_state))) = inr 3.
Proof.
  assert (H : make_config None [32; 22; 18; 16] 12 (5 # 1000) = Some (cfg default_state))
    by (vm_compute; reflexivity).
  assert (H0 : 0 <= 3 <= 255) by lia.
  assert (H3 : 3 + target_bucket default_state * 4 <= 255) by (vm_compute; discriminate).
  split; [exact H|]. split; [exact H0|]. split; [exact H3|].
  exact (set_offset_coarse_accepts None [32; 22; 18; 16] 12 (5 # 1000)
           (cfg default_state) default_state 3 H eq_refl H0 H3).
Defined.

(** X: when [offset_coarse + target_bucket*4 > 255],
    [set_offset_coarse(offset_coarse)] raises [ValueError] before any GPIO
    call and leaves the controller as it was, so [get_offset_coarse()]
    still returns the previous coarse offset. *)
Theorem set_offset_coarse_rejects (s : ctrl) (oc : Z) :
  oc + target_bucket s * 4 > 255 ->
  set_offset_coarse oc s = (inl ValueError, s) /\
  fst (get_offset_coarse (snd (set_offset_coarse oc s))) = inr (offset_coarse s).
Proof.
  intros Hgt.
  assert (E : set_offset_coarse oc s = (inl ValueError, s)).
  { unfold set_offset_coarse, bind, get. cbv beta iota.
    replace (oc + target_bucket s * 4 >? 255) with true
      by (symmetry; rewrite Z.gtb_ltb; apply Z.ltb_lt; lia).
    reflexivity. }
  rewrite E. split; reflexivity.
Qed.

Lemma set_offset_coarse_rejects_witness :
  256 + target_bucket default_state * 4 > 255 /\
  set_offset_coarse 256 default_state = (inl ValueError, default_state) /\
  fst (get_offset_coarse (snd (set_offset_coarse 256 default_state))) =
    inr (offset_coarse default_state).
Proof.
  assert (H : 256 + target_bucket default_state * 4 > 255) by (vm_compute; reflexivity).
  split; [exact H|]. exact (set_offset_coarse_rejects default_state 256 H).
Defined.

(** X: [set_offset_fine(t)] raises [ValueError] exactly when [t < 0] or
    [t - current_phase_counter > 255] (a negative step is not bounded),
    and when it raises the controller is left exactly as it was: no GPIO
    call, [offset_fine] and [current_phase_counter] unchanged. *)
Theorem set_offset_fine_range_check dp mp sp st c (s : ctrl) (t : Z) :
  make_config dp mp sp st = Some c ->
  cfg s = c ->
  (fst (set_offset_fine t s) = inl ValueError <->
   (t < 0 \/ t - current_phase_counter s > 255)) /\
  ((t < 0 \/ t - current_phase_counter s > 255) -> snd (set_offset_fine t s) = s).
Proof.
  intros Hmk Hc.
  destruct (make_config_inv _ _ _ _ _ Hmk) as (_ & Hsp & Hm & _ & _).
  split; [|intros H; rewrite (set_offset_fine_raise s t H); reflexivity].
  destruct (Z_lt_le_dec t 0) as [Hn|Hn];
    [|destruct (Z_lt_le_dec 255 (t - current_phase_counter s)) as [Hd|Hd]].
  - rewrite (set_offset_fine_raise s t) by (left; exact Hn).
    split; [intros _; left; exact Hn | reflexivity].
  - rewrite (set_offset_fine_raise s t) by (right; lia).
    split; [intros _; right; lia | reflexivity].
  - rewrite (set_offset_fine_ok c sp s t Hm Hsp Hc Hn Hd). cbn [fst].
    split; [discriminate | lia].
Qed.

Lemma set_offset_fine_range_check_witness :
  make_config None [32; 22; 18; 16] 12 (5 # 1000) = Some (cfg default_state) /\
  (fst (set_offset_fine (-1) default_state) = inl ValueError <->
   (-1 < 0 \/ -1 - current_phase_counter default_state > 255)) /\
  ((-1 < 0 \/ -1 - current_phase_counter default_state > 255) ->
   snd (set_offset_fine (-1) default_state) = default_state).
Proof.
  assert (H : make_config None [32; 22; 18; 16] 12 (5 # 1000) = Some (cfg default_state))
    by (vm_compute; reflexivity).
  split; [exact H|].
  exact (set_offset_fine_range_check None [32; 22; 18; 16] 12 (5 # 1000)
           (cfg default_state) default_state (-1) H eq_refl).
Defined.

(** X: within the device server's bounds for the fine offset attribute
    ([0..255]), starting from a phase counter in [0..255],
    [set_offset_fine(t)] never raises, returns [t], and leaves the phase
    counter in [0..255] again, so a client of the device server never sees
    its range error. *)
Theorem set_offset_fine_device_bounds dp mp sp st c (s : ctrl) (t : Z) :
  make_config dp mp sp st = Some c ->
  cfg s = c ->
  0 <= current_phase_counter s <= 255 ->
  0 <= t <= 255 ->
  fst (set_offset_fine t s) = inr t /\
  0 <= current_phase_counter (snd (set_offset_fine t s)) <= 255 /\
  fst (get_offset_fine (snd (set_offset_fine t s))) = inr t.
Proof.
  intros Hmk Hc Hcnt Ht.
  destruct (make_config_inv _ _ _ _ _ Hmk) as (_ & Hsp & Hm & _ & _).
  rewrite (set_offset_fine_ok c sp s t Hm Hsp Hc) by lia.
  cbn. split; [reflexivity|]. split; [lia | reflexivity].
Qed.

Lemma set_offset_fine_device_bounds_witness :
  make_config None [32; 22; 18; 16] 12 (5 # 1000) = Some (cfg default_state) /\
  0 <= current_phase_counter default_state <= 255 /\
  fst (set_offset_fine 200 default_state) = inr 200 /\
  0 <= current_phase_counter (snd (set_offset_fine 200 default_state)) <= 255 /\
  fst (get_offset_fine (snd (set_offset_fine 200 default_state))) = inr 200.
Proof.
  assert (H : make_config None [32; 22; 18; 16] 12 (5 # 1000) = Some (cfg default_state))
    by (vm_compute; reflexivity).
  assert (Hc : 0 <= current_phase_counter default_state <= 255)
    by (vm_compute; split; discriminate).
  split; [exact H|]. split; [exact Hc|].
  exact (set_offset_fine_device_bounds None [32; 22; 18; 16] 12 (5 # 1000)
           (cfg default_state) default_state 200 H eq_refl Hc ltac:(lia)).
Defined.

(** X: when [0 <= b*4 + offset_coarse <= 255], [set_bucket(b)] writes
    [b*4 + offset_coarse] under the [bucket] mode code, changes no
    attribute other than the bucket, and [get_bucket()] then returns [b]. *)
Theorem set_bucket_accepts dp mp sp st c (s : ctrl) (b : Z) :
  make_config dp mp sp st = Some c ->
  cfg s = c ->
  0 <= b * 4 + offset_coarse s <= 255 ->
  set_bucket b s =
    (inr tt, with_target_bucket
               (with_hw s (hw s ++ write_byte_events c sp (b * 4 + offset_coarse s) 5)) b) /\
  fst (get_bucket (snd (set_bucket b s))) = inr b.
Proof.
  intros Hmk Hc [_ Hle].
  destruct (make_config_inv _ _ _ _ _ Hmk) as (_ & Hsp & Hm & _ & _).
  rewrite (set_bucket_ok c sp s b Hm Hsp Hc Hle). split; reflexivity.
Qed.

Lemma set_bucket_accepts_witness :
  make_config None [32; 22; 18; 16] 12 (5 # 1000) = Some (cfg default_state) /\
  0 <= 3 * 4 + offset_coarse default_state <= 255 /\
  set_bucket 3 default_state =
    (inr tt, with_target_bucket
               (with_hw default_state (hw default_state ++
                  write_byte_events (cfg default_state) 12
                    (3 * 4 + offset_coarse default_state) 5)) 3) /\
  fst (get_bucket (snd (set_bucket 3 default_state))) = inr 3.
Proof.
  assert (H : make_config None [32; 22; 18; 16] 12 (5 # 1000) = Some (cfg default_state))
    by (vm_compute; reflexivity).
  assert (Hb : 0 <= 3 * 4 + offset_coarse default_state <= 255)
    by (vm_compute; split; discriminate).
  split; [exact H|]. split; [exact Hb|].
  exact (set_bucket_accepts None [32; 22; 18; 16] 12 (5 # 1000)
           (cfg default_state) default_state 3 H eq_refl Hb).
Defined.

(** X: [set_window(d)] is idempotent: a second call with the same delay
    succeeds, writes the same table index under the [window] mode code
    again, and keeps the stored window unchanged. *)
Theorem set_window_idempotent dp mp sp st c (s : ctrl) (d : Q) :
  make_config dp mp sp st = Some c ->
  cfg s = c ->
  exists i,
    set_window d s =
      (inr tt, snd (set_window d s)) /\
    hw (snd (set_window d s)) = hw s ++ write_byte_events c sp (Z.of_nat i) 6 /\
    set_window d (snd (set_window d s)) =
      (inr tt, with_hw (snd (set_window d s))
                 (hw (snd (set_window d s)) ++ write_byte_events c sp (Z.of_nat i) 6)).
Proof.
  intros Hmk Hc.
  destruct (make_config_inv _ _ _ _ _ Hmk) as (_ & Hsp & Hm & _ & _).
  pose proof (delay_table_len _ _ _ _ _ Hmk) as Hlen.
  destruct (set_window_ok c sp s d Hm Hsp Hlen Hc) as (k & t & Ea & Et & E).
  set (s1 := with_window (with_hw s (hw s ++ write_byte_events c sp (Z.of_nat k) 6)) t).
  destruct (set_window_ok c sp s1 d Hm Hsp Hlen Hc) as (k' & t' & Ea' & Et' & E').
  rewrite Ea in Ea'. inversion Ea'; subst k'.
  rewrite Et in Et'. inversion Et'; subst t'.
  exists k. rewrite E. cbn [snd]. split; [reflexivity|]. split; [reflexivity|].
  unfold s1 in *. rewrite E'. reflexivity.
Qed.

Lemma set_window_idempotent_witness :
  make_config None [32; 22; 18; 16] 12 (5 # 1000) = Some (cfg default_state) /\
  exists i,
    set_window (7 # 2) default_state =
      (inr tt, snd (set_window (7 # 2) default_state)) /\
    hw (snd (set_window (7 # 2) default_state)) =
      hw default_state ++ write_byte_events (cfg default_state) 12 (Z.of_nat i) 6 /\
    set_window (7 # 2) (snd (set_window (7 # 2) default_state)) =
      (inr tt, with_hw (snd (set_window (7 # 2) default_state))
                 (hw (snd (set_window (7 # 2) default_state)) ++
                  write_byte_events (cfg default_state) 12 (Z.of_nat i) 6)).
Proof.
  assert (H : make_config None [32; 22; 18; 16] 12 (5 # 1000) = Some (cfg default_state))
    by (vm_compute; reflexivity).
  split; [exact H|].
  exact (set_window_idempotent None [32; 22; 18; 16] 12 (5 # 1000)
           (cfg default_state) default_state (7 # 2) H eq_refl).
Defined.

(** X: a requested delay that is exactly a table entry is kept exactly:
    after [set_window(delay_array[i])], [get_window()] returns that entry. *)
Theorem set_window_exact dp mp sp st c (s : ctrl) (i : nat) (t : Z) :
  make_config dp mp sp st = Some c ->
  cfg s = c ->
  nth_error (delay_array c) i = Some t ->
  fst (get_window (snd (set_window (inject_Z t) s))) = inr t.
Proof.
  intros Hmk Hc Ht.
  destruct (make_config_inv _ _ _ _ _ Hmk) as (_ & Hsp & Hm & _ & _).
  pose proof (delay_table_len _ _ _ _ _ Hmk) as Hlen.
  destruct (set_window_ok c sp s (inject_Z t) Hm Hsp Hlen Hc) as (k & t' & Ea & Et & E).
  rewrite E. cbn. f_equal.
  destruct (argmin_spec _ _ Ea) as (v & Hv & Hall & _).
  unfold delay_costs in Hv. rewrite nth_error_map, Et in Hv. cbn [option_map] in Hv.
  injection Hv as <-.
  assert (Hin : In (Qabs (fl64 (inject_Z t - inject_Z t)))
                   (delay_costs (delay_array c) (inject_Z t))).
  { unfold delay_costs. apply (in_map (fun x => Qabs (fl64 (inject_Z x - inject_Z t)))).
    apply nth_error_In with i. exact Ht. }
  specialize (Hall _ Hin).
  assert (Hz : fl64 (inject_Z t - inject_Z t) = 0%Q).
  { unfold fl64. replace ((inject_Z t - inject_Z t ?= 0)%Q) with Eq; [reflexivity|].
    symmetry. apply Qeq_alt. ring. }
  rewrite Hz in Hall.
  destruct (Z.eq_dec t' t) as [|Hne]; [assumption|]. exfalso.
  assert (H1 : (pow2 0 <= Qabs (inject_Z t' - inject_Z t))%Q).
  { change (pow2 0) with (inject_Z 1).
    setoid_replace (inject_Z t' - inject_Z t)%Q with (inject_Z (t' - t))
      by (unfold Z.sub; rewrite inject_Z_plus, inject_Z_opp; ring).
    change (Qabs (inject_Z (t' - t))) with (inject_Z (Z.abs (t' - t))).
    rewrite <- Zle_Qle. lia. }
  pose proof (fl64_abs_ge _ 0 H1 ltac:(lia)) as H2.
  apply (Qlt_not_le _ _ (Qlt_le_trans _ _ _ (pow2_pos 0) H2)). exact Hall.
Qed.

Lemma set_window_exact_witness :
  make_config None [32; 22; 18; 16] 12 (5 # 1000) = Some (cfg default_state) /\
  nth_error (delay_array (cfg default_state)) 10 = Some 243 /\
  fst (get_window (snd (set_window (inject_Z 243) default_state))) = inr 243.
Proof.
  assert (H : make_config None [32; 22; 18; 16] 12 (5 # 1000) = Some (cfg default_state))
    by (vm_compute; reflexivity).
  assert (Ht : nth_error (delay_array (cfg default_state)) 10 = Some 243)
    by (vm_compute; reflexivity).
  split; [exact H|]. split; [exact Ht|].
  exact (set_window_exact None [32; 22; 18; 16] 12 (5 # 1000)
           (cfg default_state) default_state 10 243 H eq_refl Ht).
Defined.
